(** * ImGuiSugar: scope guards over Dear ImGui's begin/end and push/pop pairs

    A shallow embedding of [Source/ImGui/Public/ImGuiSugar.h]: the RAII guard
    [ImGuiSugar::BooleanGuard<AlwaysCallEnd>], the helper functions of the
    [ImGuiSugar] namespace, the generic [IMGUI_SUGAR_*] macros and the
    [with_*] / [set_*] macros built from them.

    The GUI library itself ([imgui.h]) is not part of the header: it is an
    interface ([ImGuiLibrary]) whose functions may do anything to the
    library's context.  What the header does is observed through the list of
    library calls it makes, in order. *)

From Stdlib Require Import ZArith QArith List Bool String Lia.
From stdpp Require Import gmap strings.
Import ListNotations.

(** ** Values handed to the library *)

(** [ImVec4] of imgui.h: four float components.  A component is kept as the
    number written in the source; the library does the rounding to [float]. *)
Module ImVec4.
Record t : Type := make { x : Q; y : Q; z : Q; w : Q }.
End ImVec4.

(** The three members of [enum ImGuiCol_] that the header names. *)
Inductive ImGuiCol : Type :=
| ImGuiCol_Button
| ImGuiCol_ButtonHovered
| ImGuiCol_ButtonActive.

(** An argument of a library call. *)
Inductive Arg : Type :=
| AInt (n : Z)
| ABool (b : bool)
| AFloat (q : Q)
| AString (s : string)
| ACol (idx : ImGuiCol)
| AVec4 (col : ImVec4.t)
| APtr (addr : N).

(** The functions of [namespace ImGui] that the header calls, by return
    type.  ([End_] is [ImGui::End].) *)
Module ImGui.
Inductive BoolFn : Type :=
| Begin | BeginChild | BeginChildFrame | BeginCombo | BeginListBox
| BeginMenu | BeginPopup | BeginPopupModal | BeginPopupContextItem
| BeginPopupContextWindow | BeginPopupContextVoid | BeginTable
| BeginTabBar | BeginTabItem | BeginDragDropSource
| TreeNode | TreeNodeV | TreeNodeEx | TreeNodeExV
| BeginDragDropTarget | BeginMainMenuBar | BeginMenuBar
| IsItemHovered | CollapsingHeader | MenuItem.

Inductive VoidFn : Type :=
| End_ | EndChild | EndChildFrame | EndCombo | EndListBox | EndMenu
| EndPopup | EndTable | EndTabBar | EndTabItem | EndDragDropSource
| TreePop | EndTooltip | EndDragDropTarget | EndMainMenuBar | EndMenuBar
| BeginGroup | EndGroup | BeginTooltip
| PushFont | PopFont | PushButtonRepeat | PopButtonRepeat
| PushItemWidth | PopItemWidth | PushTextWrapPos | PopTextWrapPos
| PushID | PopID | PushClipRect | PopClipRect
| PushTextureID | PopTextureID
| PushStyleColor | PopStyleColor | PushStyleVar | PopStyleVar.
End ImGui.
Abbreviation BoolFn := ImGui.BoolFn.
Abbreviation VoidFn := ImGui.VoidFn.

(** One call into the library, as the library sees it. *)
Inductive Call : Type :=
| CallB (f : BoolFn) (args : list Arg)
| CallV (f : VoidFn) (args : list Arg).

#[global] Instance Q_eq_dec : EqDecision Q.
Proof. solve_decision. Defined.
#[global] Instance ImVec4_eq_dec : EqDecision ImVec4.t.
Proof. solve_decision. Defined.
#[global] Instance ImGuiCol_eq_dec : EqDecision ImGuiCol.
Proof. solve_decision. Defined.
#[global] Instance Arg_eq_dec : EqDecision Arg.
Proof. solve_decision. Defined.
#[global] Instance BoolFn_eq_dec : EqDecision BoolFn.
Proof. solve_decision. Defined.
#[global] Instance VoidFn_eq_dec : EqDecision VoidFn.
Proof. solve_decision. Defined.
#[global] Instance Call_eq_dec : EqDecision Call.
Proof. solve_decision. Defined.

(** How often the call [c] occurs in a list of calls. *)
Fixpoint received (c : Call) (log : list Call) : nat :=
  match log with
  | [] => 0
  | c' :: log => (if decide (c = c') then 1 else 0) + received c log
  end.

(** The library: a context and what each function does to it. *)
Class ImGuiLibrary : Type := {
  ImGuiContext : Type;
  imgui_bool : BoolFn -> list Arg -> ImGuiContext -> bool * ImGuiContext;
  imgui_void : VoidFn -> list Arg -> ImGuiContext -> ImGuiContext
}.

(** ** Computations *)

(** How control leaves a statement other than by running off its end. *)
Inductive Exit : Type := Break | Continue | Return | Goto | Throw.

(** [Terminated]: [std::terminate] was called; nothing runs afterwards. *)
Inductive Outcome (A : Type) : Type :=
| Normal (a : A)
| Abrupt (how : Exit)
| Terminated.
Arguments Normal {A} a.
Arguments Abrupt {A} how.
Arguments Terminated {A}.

Section Sugar.
Context {L : ImGuiLibrary}.

(** The library's context and the calls made so far, oldest first. *)
Record World : Type := mkWorld { ctx : ImGuiContext; calls : list Call }.

Definition M (A : Type) : Type := World -> Outcome A * World.

Definition pure {A} (a : A) : M A := fun w => (Normal a, w).

Definition bind {A B} (m : M A) (k : A -> M B) : M B := fun w =>
  match m w with
  | (Normal a, w') => k a w'
  | (Abrupt how, w') => (Abrupt how, w')
  | (Terminated, w') => (Terminated, w')
  end.

Notation "x <- m ;; k" := (bind m (fun x => k))
  (at level 100, m at next level, right associativity).
Notation "m ;;; k" := (bind m (fun _ => k))
  (at level 100, right associativity).

(** A call of a library function: the library acts on its context, the call
    is recorded, and the function returns. *)
Definition call_bool (f : BoolFn) (args : list Arg) : M bool := fun w =>
  let '(b, c) := imgui_bool f args (ctx w) in
  (Normal b, {| ctx := c; calls := calls w ++ [CallB f args] |}).

Definition call_void (f : VoidFn) (args : list Arg) : M unit := fun w =>
  (Normal tt, {| ctx := imgui_void f args (ctx w);
                 calls := calls w ++ [CallV f args] |}).

(** A function declared [noexcept]: an exception that would leave it calls
    [std::terminate] instead. *)
Definition noexcept {A} (body : M A) : M A := fun w =>
  match body w with
  | (Abrupt Throw, w') => (Terminated, w')
  | r => r
  end.

(** An object with automatic storage is destroyed when control leaves its
    scope, however it leaves.  A destructor that throws while another
    exception unwinds the stack terminates the program. *)
Definition at_scope_exit {A} (body : M A) (destroy : M unit) : M A := fun w =>
  match body w with
  | (Terminated, w') => (Terminated, w')
  | (o, w') =>
      match destroy w' with
      | (Normal _, w'') => (o, w'')
      | (Abrupt how, w'') =>
          match o with
          | Abrupt Throw => (Terminated, w'')
          | _ => (Abrupt how, w'')
          end
      | (Terminated, w'') => (Terminated, w'')
      end
  end.

(** ** [namespace ImGuiSugar] *)

(** [ScopeEndCallback], a pointer to a function taking nothing and returning
    [void]: what calling through the pointer does.  The macros only ever
    pass the address of a function. *)
Definition ScopeEndCallback : Type := M unit.

(** [&ImGui::F] for a library function [F] without parameters. *)
Definition address_of (f : VoidFn) : ScopeEndCallback := call_void f [].

(** [template<bool AlwaysCallEnd> struct BooleanGuard]: the two private
    [const] members. *)
Record BooleanGuard (AlwaysCallEnd : bool) : Type := mkBooleanGuard {
  m_state : bool;
  m_end : ScopeEndCallback
}.
Arguments mkBooleanGuard {AlwaysCallEnd} m_state m_end.
Arguments m_state {AlwaysCallEnd} b.
Arguments m_end {AlwaysCallEnd} b.

(** [BooleanGuard(const bool state, const ScopeEndCallback end) noexcept] *)
Definition BooleanGuard_ctor (AlwaysCallEnd : bool)
    (state : bool) (end_ : ScopeEndCallback) : M (BooleanGuard AlwaysCallEnd) :=
  noexcept (pure {| m_state := state; m_end := end_ |}).

(** [~BooleanGuard() noexcept { if (AlwaysCallEnd || m_state) { m_end(); } }] *)
Definition BooleanGuard_dtor {AlwaysCallEnd : bool}
    (this : BooleanGuard AlwaysCallEnd) : M unit :=
  noexcept (if AlwaysCallEnd || m_state this then m_end this else pure tt).

(** [operator bool() const & noexcept { return m_state; }] *)
Definition operator_bool {AlwaysCallEnd : bool}
    (this : BooleanGuard AlwaysCallEnd) : M bool :=
  noexcept (pure (m_state this)).

(** [inline void PopStyleColor() { ImGui::PopStyleColor(1); }] *)
Definition ImGuiSugar_PopStyleColor : M unit :=
  call_void ImGui.PopStyleColor [AInt 1].

(** [inline void PopStyleVar() { ImGui::PopStyleVar(1); }] *)
Definition ImGuiSugar_PopStyleVar : M unit :=
  call_void ImGui.PopStyleVar [AInt 1].

(** [inline auto BeginTooltip() -> bool]: tooltip triggered on hover. *)
Definition ImGuiSugar_BeginTooltip : M bool :=
  hovered <- call_bool ImGui.IsItemHovered [] ;;
  if hovered then (call_void ImGui.BeginTooltip [] ;;; pure true)
  else pure false.

(** ** Utility macros *)

(** [([&]() -> bool { FN(__VA_ARGS__); return true; }())] *)
Definition IMGUI_SUGAR_ES (FN : list Arg -> M unit) (args : list Arg) : M bool :=
  FN args ;;; pure true.

(** [([&]() -> bool { FN(); return true; }())] *)
Definition IMGUI_SUGAR_ES_0 (FN : list Arg -> M unit) : M bool :=
  FN [] ;;; pure true.

(** ** Generic macros *)

(** [if (const BooleanGuard<ALWAYS> guard = {state, end}) then_ else else_]:
    the initialiser is evaluated, the guard constructed and converted to
    [bool], one branch runs, and the guard is destroyed when control leaves
    the [if] statement. *)
Definition if_guard (ALWAYS : bool) (state : M bool) (end_ : ScopeEndCallback)
    (then_ else_ : M unit) : M unit :=
  s <- state ;;
  guard <- BooleanGuard_ctor ALWAYS s end_ ;;
  at_scope_exit
    (cond <- operator_bool guard ;; if cond then then_ else else_)
    (BooleanGuard_dtor guard).

(** [const BooleanGuard<ALWAYS> guard = {state, end};] followed by the rest
    of the enclosing block: the guard lives until that block is left. *)
Definition declare_guard (ALWAYS : bool) (state : M bool) (end_ : ScopeEndCallback)
    (rest : M unit) : M unit :=
  s <- state ;;
  guard <- BooleanGuard_ctor ALWAYS s end_ ;;
  at_scope_exit rest (BooleanGuard_dtor guard).

(** [if (const BooleanGuard<ALWAYS> guard = {BEGIN(__VA_ARGS__), &END})] *)
Definition IMGUI_SUGAR_SCOPED_BOOL (BEGIN : list Arg -> M bool)
    (END : ScopeEndCallback) (ALWAYS : bool) (args : list Arg)
    (then_ else_ : M unit) : M unit :=
  if_guard ALWAYS (BEGIN args) END then_ else_.

(** [if (const BooleanGuard<ALWAYS> guard = {BEGIN(), &END})] *)
Definition IMGUI_SUGAR_SCOPED_BOOL_0 (BEGIN : list Arg -> M bool)
    (END : ScopeEndCallback) (ALWAYS : bool)
    (then_ else_ : M unit) : M unit :=
  if_guard ALWAYS (BEGIN []) END then_ else_.

(** [if (const BooleanGuard<true> guard =
        {IMGUI_SUGAR_ES(BEGIN, __VA_ARGS__), &END})] *)
Definition IMGUI_SUGAR_SCOPED_VOID_N (BEGIN : list Arg -> M unit)
    (END : ScopeEndCallback) (args : list Arg)
    (then_ else_ : M unit) : M unit :=
  if_guard true (IMGUI_SUGAR_ES BEGIN args) END then_ else_.

(** [if (const BooleanGuard<true> guard = {IMGUI_SUGAR_ES_0(BEGIN), &END})] *)
Definition IMGUI_SUGAR_SCOPED_VOID_0 (BEGIN : list Arg -> M unit)
    (END : ScopeEndCallback) (then_ else_ : M unit) : M unit :=
  if_guard true (IMGUI_SUGAR_ES_0 BEGIN) END then_ else_.

(** [const BooleanGuard<true> scope =
        {IMGUI_SUGAR_ES(BEGIN, __VA_ARGS__), &END}] *)
Definition IMGUI_SUGAR_PARENT_SCOPED_VOID_N (BEGIN : list Arg -> M unit)
    (END : ScopeEndCallback) (args : list Arg) (rest : M unit) : M unit :=
  declare_guard true (IMGUI_SUGAR_ES BEGIN args) END rest.

(** ** The DSL: self scoped blocks

    Each definition is one [#define] of the header: BEGIN, END and, for the
    [bool] forms, ALWAYS. *)

Definition with_Window :=
  IMGUI_SUGAR_SCOPED_BOOL (call_bool ImGui.Begin) (address_of ImGui.End_) true.

Definition with_Child :=
  IMGUI_SUGAR_SCOPED_BOOL (call_bool ImGui.BeginChild)
    (address_of ImGui.EndChild) true.

Definition with_ChildFrame :=
  IMGUI_SUGAR_SCOPED_BOOL (call_bool ImGui.BeginChildFrame)
    (address_of ImGui.EndChildFrame) true.

Definition with_Combo :=
  IMGUI_SUGAR_SCOPED_BOOL (call_bool ImGui.BeginCombo)
    (address_of ImGui.EndCombo) false.

Definition with_ListBox :=
  IMGUI_SUGAR_SCOPED_BOOL (call_bool ImGui.BeginListBox)
    (address_of ImGui.EndListBox) false.

Definition with_Menu :=
  IMGUI_SUGAR_SCOPED_BOOL (call_bool ImGui.BeginMenu)
    (address_of ImGui.EndMenu) false.

Definition with_Popup :=
  IMGUI_SUGAR_SCOPED_BOOL (call_bool ImGui.BeginPopup)
    (address_of ImGui.EndPopup) false.

Definition with_PopupModal :=
  IMGUI_SUGAR_SCOPED_BOOL (call_bool ImGui.BeginPopupModal)
    (address_of ImGui.EndPopup) false.

Definition with_PopupContextItem :=
  IMGUI_SUGAR_SCOPED_BOOL (call_bool ImGui.BeginPopupContextItem)
    (address_of ImGui.EndPopup) false.

Definition with_PopupContextWindow :=
  IMGUI_SUGAR_SCOPED_BOOL (call_bool ImGui.BeginPopupContextWindow)
    (address_of ImGui.EndPopup) false.

Definition with_PopupContextVoid :=
  IMGUI_SUGAR_SCOPED_BOOL (call_bool ImGui.BeginPopupContextVoid)
    (address_of ImGui.EndPopup) false.

Definition with_Table :=
  IMGUI_SUGAR_SCOPED_BOOL (call_bool ImGui.BeginTable)
    (address_of ImGui.EndTable) false.

Definition with_TabBar :=
  IMGUI_SUGAR_SCOPED_BOOL (call_bool ImGui.BeginTabBar)
    (address_of ImGui.EndTabBar) false.

Definition with_TabItem :=
  IMGUI_SUGAR_SCOPED_BOOL (call_bool ImGui.BeginTabItem)
    (address_of ImGui.EndTabItem) false.

Definition with_DragDropSource :=
  IMGUI_SUGAR_SCOPED_BOOL (call_bool ImGui.BeginDragDropSource)
    (address_of ImGui.EndDragDropSource) false.

Definition with_TreeNode :=
  IMGUI_SUGAR_SCOPED_BOOL (call_bool ImGui.TreeNode)
    (address_of ImGui.TreePop) false.

Definition with_TreeNodeV :=
  IMGUI_SUGAR_SCOPED_BOOL (call_bool ImGui.TreeNodeV)
    (address_of ImGui.TreePop) false.

Definition with_TreeNodeEx :=
  IMGUI_SUGAR_SCOPED_BOOL (call_bool ImGui.TreeNodeEx)
    (address_of ImGui.TreePop) false.

Definition with_TreeNodeExV :=
  IMGUI_SUGAR_SCOPED_BOOL (call_bool ImGui.TreeNodeExV)
    (address_of ImGui.TreePop) false.

Definition with_TooltipOnHover :=
  IMGUI_SUGAR_SCOPED_BOOL_0 (fun _ => ImGuiSugar_BeginTooltip)
    (address_of ImGui.EndTooltip) false.

Definition with_DragDropTarget :=
  IMGUI_SUGAR_SCOPED_BOOL_0 (call_bool ImGui.BeginDragDropTarget)
    (address_of ImGui.EndDragDropTarget) false.

Definition with_MainMenuBar :=
  IMGUI_SUGAR_SCOPED_BOOL_0 (call_bool ImGui.BeginMainMenuBar)
    (address_of ImGui.EndMainMenuBar) false.

Definition with_MenuBar :=
  IMGUI_SUGAR_SCOPED_BOOL_0 (call_bool ImGui.BeginMenuBar)
    (address_of ImGui.EndMenuBar) false.

Definition with_Group :=
  IMGUI_SUGAR_SCOPED_VOID_0 (call_void ImGui.BeginGroup)
    (address_of ImGui.EndGroup).

Definition with_Tooltip :=
  IMGUI_SUGAR_SCOPED_VOID_0 (call_void ImGui.BeginTooltip)
    (address_of ImGui.EndTooltip).

Definition with_Font :=
  IMGUI_SUGAR_SCOPED_VOID_N (call_void ImGui.PushFont)
    (address_of ImGui.PopFont).

Definition with_ButtonRepeat :=
  IMGUI_SUGAR_SCOPED_VOID_N (call_void ImGui.PushButtonRepeat)
    (address_of ImGui.PopButtonRepeat).

Definition with_ItemWidth :=
  IMGUI_SUGAR_SCOPED_VOID_N (call_void ImGui.PushItemWidth)
    (address_of ImGui.PopItemWidth).

Definition with_TextWrapPos :=
  IMGUI_SUGAR_SCOPED_VOID_N (call_void ImGui.PushTextWrapPos)
    (address_of ImGui.PopTextWrapPos).

Definition with_ID :=
  IMGUI_SUGAR_SCOPED_VOID_N (call_void ImGui.PushID) (address_of ImGui.PopID).

Definition with_ClipRect :=
  IMGUI_SUGAR_SCOPED_VOID_N (call_void ImGui.PushClipRect)
    (address_of ImGui.PopClipRect).

Definition with_TextureID :=
  IMGUI_SUGAR_SCOPED_VOID_N (call_void ImGui.PushTextureID)
    (address_of ImGui.PopTextureID).

(** ** Guards managed by the parent scope *)

Definition set_Font :=
  IMGUI_SUGAR_PARENT_SCOPED_VOID_N (call_void ImGui.PushFont)
    (address_of ImGui.PopFont).

Definition set_ButtonRepeat :=
  IMGUI_SUGAR_PARENT_SCOPED_VOID_N (call_void ImGui.PushButtonRepeat)
    (address_of ImGui.PopButtonRepeat).

Definition set_ItemWidth :=
  IMGUI_SUGAR_PARENT_SCOPED_VOID_N (call_void ImGui.PushItemWidth)
    (address_of ImGui.PopItemWidth).

Definition set_TextWrapPos :=
  IMGUI_SUGAR_PARENT_SCOPED_VOID_N (call_void ImGui.PushTextWrapPos)
    (address_of ImGui.PopTextWrapPos).

Definition set_ID :=
  IMGUI_SUGAR_PARENT_SCOPED_VOID_N (call_void ImGui.PushID)
    (address_of ImGui.PopID).

Definition set_ClipRect :=
  IMGUI_SUGAR_PARENT_SCOPED_VOID_N (call_void ImGui.PushClipRect)
    (address_of ImGui.PopClipRect).

Definition set_TextureID :=
  IMGUI_SUGAR_PARENT_SCOPED_VOID_N (call_void ImGui.PushTextureID)
    (address_of ImGui.PopTextureID).

(** ** Special case: the overloaded StyleColor and StyleVar *)

Definition set_StyleColor :=
  IMGUI_SUGAR_PARENT_SCOPED_VOID_N (call_void ImGui.PushStyleColor)
    ImGuiSugar_PopStyleColor.

Definition set_StyleVar :=
  IMGUI_SUGAR_PARENT_SCOPED_VOID_N (call_void ImGui.PushStyleVar)
    ImGuiSugar_PopStyleVar.

Definition with_StyleColor :=
  IMGUI_SUGAR_SCOPED_VOID_N (call_void ImGui.PushStyleColor)
    ImGuiSugar_PopStyleColor.

Definition with_StyleVar :=
  IMGUI_SUGAR_SCOPED_VOID_N (call_void ImGui.PushStyleVar)
    ImGuiSugar_PopStyleVar.

(** ** Non RAII *)

(** [if (ImGui::CollapsingHeader(__VA_ARGS__))] *)
Definition with_CollapsingHeader (args : list Arg) (then_ else_ : M unit) : M unit :=
  cond <- call_bool ImGui.CollapsingHeader args ;; if cond then then_ else else_.

(** [if (ImGui::MenuItem(__VA_ARGS__))] *)
Definition with_MenuItem (args : list Arg) (then_ else_ : M unit) : M unit :=
  cond <- call_bool ImGui.MenuItem args ;; if cond then then_ else else_.

(** ** Coloured buttons *)

(** The first lambda of [with_ButtonColored(r,g,b)]: three pushes, then
    [return true]. *)
Definition ButtonColored_push (r g b : Q) : M bool :=
  call_void ImGui.PushStyleColor
    [ACol ImGuiCol_Button; AVec4 (ImVec4.make r g b 0.5)] ;;;
  call_void ImGui.PushStyleColor
    [ACol ImGuiCol_ButtonHovered; AVec4 (ImVec4.make r g b 0.8)] ;;;
  call_void ImGui.PushStyleColor
    [ACol ImGuiCol_ButtonActive; AVec4 (ImVec4.make r g b 0.7)] ;;;
  pure true.

(** The second lambda: [PopStyleColor(3);] *)
Definition ButtonColored_pop : ScopeEndCallback :=
  call_void ImGui.PopStyleColor [AInt 3].

Definition with_ButtonColored (r g b : Q) (then_ else_ : M unit) : M unit :=
  if_guard true (ButtonColored_push r g b) ButtonColored_pop then_ else_.

(** ** The macros as a family *)

(** The [with_] macros whose opening call returns [bool]. *)
Inductive BoolMacro : Type :=
| Window | Child | ChildFrame | Combo | ListBox
| Menu | Popup | PopupModal | PopupContextItem | PopupContextWindow
| PopupContextVoid | Table | TabBar | TabItem | DragDropSource
| TreeNode | TreeNodeV | TreeNodeEx | TreeNodeExV
| TooltipOnHover | DragDropTarget | MainMenuBar | MenuBar.

(** The [with_] macros whose opening call returns [void]. *)
Inductive VoidMacro : Type :=
| Group_ | Tooltip_
| Font_ | ButtonRepeat_ | ItemWidth_ | TextWrapPos_ | ID_ | ClipRect_
| TextureID_ | StyleColor_ | StyleVar_.

(** The [set_] macros. *)
Inductive SetMacro : Type :=
| SetFont | SetButtonRepeat | SetItemWidth | SetTextWrapPos | SetID
| SetClipRect | SetTextureID | SetStyleColor | SetStyleVar.

(** The macros without a guard. *)
Inductive PlainMacro : Type := CollapsingHeader | MenuItem.

Inductive Macro : Type :=
| WithBool (m : BoolMacro)
| WithVoid (m : VoidMacro)
| Set_ (m : SetMacro)
| Plain (m : PlainMacro).

(** The expansion of each macro.  A macro defined without parameters
    takes no argument; a [set_] macro is followed by the rest of the
    enclosing block, and has no [else]. *)
Definition expand_bool (m : BoolMacro) (args : list Arg) : M unit -> M unit -> M unit :=
  match m with
  | Window => with_Window args
  | Child => with_Child args
  | ChildFrame => with_ChildFrame args
  | Combo => with_Combo args
  | ListBox => with_ListBox args
  | Menu => with_Menu args
  | Popup => with_Popup args
  | PopupModal => with_PopupModal args
  | PopupContextItem => with_PopupContextItem args
  | PopupContextWindow => with_PopupContextWindow args
  | PopupContextVoid => with_PopupContextVoid args
  | Table => with_Table args
  | TabBar => with_TabBar args
  | TabItem => with_TabItem args
  | DragDropSource => with_DragDropSource args
  | TreeNode => with_TreeNode args
  | TreeNodeV => with_TreeNodeV args
  | TreeNodeEx => with_TreeNodeEx args
  | TreeNodeExV => with_TreeNodeExV args
  | TooltipOnHover => with_TooltipOnHover
  | DragDropTarget => with_DragDropTarget
  | MainMenuBar => with_MainMenuBar
  | MenuBar => with_MenuBar
  end.

Definition expand_void (m : VoidMacro) (args : list Arg) : M unit -> M unit -> M unit :=
  match m with
  | Group_ => with_Group
  | Tooltip_ => with_Tooltip
  | Font_ => with_Font args
  | ButtonRepeat_ => with_ButtonRepeat args
  | ItemWidth_ => with_ItemWidth args
  | TextWrapPos_ => with_TextWrapPos args
  | ID_ => with_ID args
  | ClipRect_ => with_ClipRect args
  | TextureID_ => with_TextureID args
  | StyleColor_ => with_StyleColor args
  | StyleVar_ => with_StyleVar args
  end.

Definition expand_set (m : SetMacro) (args : list Arg) : M unit -> M unit :=
  match m with
  | SetFont => set_Font args
  | SetButtonRepeat => set_ButtonRepeat args
  | SetItemWidth => set_ItemWidth args
  | SetTextWrapPos => set_TextWrapPos args
  | SetID => set_ID args
  | SetClipRect => set_ClipRect args
  | SetTextureID => set_TextureID args
  | SetStyleColor => set_StyleColor args
  | SetStyleVar => set_StyleVar args
  end.

Definition expand_plain (m : PlainMacro) (args : list Arg) : M unit -> M unit -> M unit :=
  match m with
  | CollapsingHeader => with_CollapsingHeader args
  | MenuItem => with_MenuItem args
  end.

Definition expand (m : Macro) (args : list Arg) (block else_ : M unit) : M unit :=
  match m with
  | WithBool m => expand_bool m args block else_
  | WithVoid m => expand_void m args block else_
  | Set_ m => expand_set m args block
  | Plain m => expand_plain m args block else_
  end.

(** Whether the macro is defined with a parameter list [(...)]; the others
    are written with [()]. *)
Definition takes_arguments (m : Macro) : bool :=
  match m with
  | WithBool (TooltipOnHover | DragDropTarget | MainMenuBar | MenuBar) => false
  | WithVoid (Group_ | Tooltip_) => false
  | _ => true
  end.

(** The BEGIN column of the table of [with_] macros returning [bool]. *)
Definition BEGIN_of (m : BoolMacro) : list Arg -> M bool :=
  match m with
  | Window => call_bool ImGui.Begin
  | Child => call_bool ImGui.BeginChild
  | ChildFrame => call_bool ImGui.BeginChildFrame
  | Combo => call_bool ImGui.BeginCombo
  | ListBox => call_bool ImGui.BeginListBox
  | Menu => call_bool ImGui.BeginMenu
  | Popup => call_bool ImGui.BeginPopup
  | PopupModal => call_bool ImGui.BeginPopupModal
  | PopupContextItem => call_bool ImGui.BeginPopupContextItem
  | PopupContextWindow => call_bool ImGui.BeginPopupContextWindow
  | PopupContextVoid => call_bool ImGui.BeginPopupContextVoid
  | Table => call_bool ImGui.BeginTable
  | TabBar => call_bool ImGui.BeginTabBar
  | TabItem => call_bool ImGui.BeginTabItem
  | DragDropSource => call_bool ImGui.BeginDragDropSource
  | TreeNode => call_bool ImGui.TreeNode
  | TreeNodeV => call_bool ImGui.TreeNodeV
  | TreeNodeEx => call_bool ImGui.TreeNodeEx
  | TreeNodeExV => call_bool ImGui.TreeNodeExV
  | TooltipOnHover => fun _ => ImGuiSugar_BeginTooltip
  | DragDropTarget => fun _ => call_bool ImGui.BeginDragDropTarget []
  | MainMenuBar => fun _ => call_bool ImGui.BeginMainMenuBar []
  | MenuBar => fun _ => call_bool ImGui.BeginMenuBar []
  end.

(** The END column of the same table. *)
Definition END_of (m : BoolMacro) : VoidFn :=
  match m with
  | Window => ImGui.End_
  | Child => ImGui.EndChild
  | ChildFrame => ImGui.EndChildFrame
  | Combo => ImGui.EndCombo
  | ListBox => ImGui.EndListBox
  | Menu => ImGui.EndMenu
  | Popup => ImGui.EndPopup
  | PopupModal => ImGui.EndPopup
  | PopupContextItem => ImGui.EndPopup
  | PopupContextWindow => ImGui.EndPopup
  | PopupContextVoid => ImGui.EndPopup
  | Table => ImGui.EndTable
  | TabBar => ImGui.EndTabBar
  | TabItem => ImGui.EndTabItem
  | DragDropSource => ImGui.EndDragDropSource
  | TreeNode => ImGui.TreePop
  | TreeNodeV => ImGui.TreePop
  | TreeNodeEx => ImGui.TreePop
  | TreeNodeExV => ImGui.TreePop
  | TooltipOnHover => ImGui.EndTooltip
  | DragDropTarget => ImGui.EndDragDropTarget
  | MainMenuBar => ImGui.EndMainMenuBar
  | MenuBar => ImGui.EndMenuBar
  end.

(** The BEGIN column of the [with_] macros returning [void]. *)
Definition PUSH_of (m : VoidMacro) : VoidFn :=
  match m with
  | Group_ => ImGui.BeginGroup
  | Tooltip_ => ImGui.BeginTooltip
  | Font_ => ImGui.PushFont
  | ButtonRepeat_ => ImGui.PushButtonRepeat
  | ItemWidth_ => ImGui.PushItemWidth
  | TextWrapPos_ => ImGui.PushTextWrapPos
  | ID_ => ImGui.PushID
  | ClipRect_ => ImGui.PushClipRect
  | TextureID_ => ImGui.PushTextureID
  | StyleColor_ => ImGui.PushStyleColor
  | StyleVar_ => ImGui.PushStyleVar
  end.

(** Their END column, as the call the library receives: the two wrappers
    of [namespace ImGuiSugar] pass the count 1. *)
Definition POP_of (m : VoidMacro) : Call :=
  match m with
  | Group_ => CallV ImGui.EndGroup []
  | Tooltip_ => CallV ImGui.EndTooltip []
  | Font_ => CallV ImGui.PopFont []
  | ButtonRepeat_ => CallV ImGui.PopButtonRepeat []
  | ItemWidth_ => CallV ImGui.PopItemWidth []
  | TextWrapPos_ => CallV ImGui.PopTextWrapPos []
  | ID_ => CallV ImGui.PopID []
  | ClipRect_ => CallV ImGui.PopClipRect []
  | TextureID_ => CallV ImGui.PopTextureID []
  | StyleColor_ => CallV ImGui.PopStyleColor [AInt 1]
  | StyleVar_ => CallV ImGui.PopStyleVar [AInt 1]
  end.

(** Each [set_] macro names the same two functions as a [with_] macro. *)
Definition with_of (m : SetMacro) : VoidMacro :=
  match m with
  | SetFont => Font_
  | SetButtonRepeat => ButtonRepeat_
  | SetItemWidth => ItemWidth_
  | SetTextWrapPos => TextWrapPos_
  | SetID => ID_
  | SetClipRect => ClipRect_
  | SetTextureID => TextureID_
  | SetStyleColor => StyleColor_
  | SetStyleVar => StyleVar_
  end.

(** ** Direct pass-through, as the specification words it *)

(** The library function a macro opens with (specification, section 6:
    the library's begin/end and push/pop pairs, consumed unchanged). *)
Definition library_opening (m : Macro) : BoolFn + VoidFn :=
  match m with
  | WithBool Window => inl ImGui.Begin
  | WithBool Child => inl ImGui.BeginChild
  | WithBool ChildFrame => inl ImGui.BeginChildFrame
  | WithBool Combo => inl ImGui.BeginCombo
  | WithBool ListBox => inl ImGui.BeginListBox
  | WithBool Menu => inl ImGui.BeginMenu
  | WithBool Popup => inl ImGui.BeginPopup
  | WithBool PopupModal => inl ImGui.BeginPopupModal
  | WithBool PopupContextItem => inl ImGui.BeginPopupContextItem
  | WithBool PopupContextWindow => inl ImGui.BeginPopupContextWindow
  | WithBool PopupContextVoid => inl ImGui.BeginPopupContextVoid
  | WithBool Table => inl ImGui.BeginTable
  | WithBool TabBar => inl ImGui.BeginTabBar
  | WithBool TabItem => inl ImGui.BeginTabItem
  | WithBool DragDropSource => inl ImGui.BeginDragDropSource
  | WithBool TreeNode => inl ImGui.TreeNode
  | WithBool TreeNodeV => inl ImGui.TreeNodeV
  | WithBool TreeNodeEx => inl ImGui.TreeNodeEx
  | WithBool TreeNodeExV => inl ImGui.TreeNodeExV
  | WithBool TooltipOnHover => inr ImGui.BeginTooltip
  | WithBool DragDropTarget => inl ImGui.BeginDragDropTarget
  | WithBool MainMenuBar => inl ImGui.BeginMainMenuBar
  | WithBool MenuBar => inl ImGui.BeginMenuBar
  | WithVoid m => inr (PUSH_of m)
  | Set_ m => inr (PUSH_of (with_of m))
  | Plain CollapsingHeader => inl ImGui.CollapsingHeader
  | Plain MenuItem => inl ImGui.MenuItem
  end.

(** The library call a macro closes with, if it has one.  [PopStyleColor]
    and [PopStyleVar] pop the one entry pushed. *)
Definition library_closing (m : Macro) : option Call :=
  match m with
  | WithBool Window => Some (CallV ImGui.End_ [])
  | WithBool Child => Some (CallV ImGui.EndChild [])
  | WithBool ChildFrame => Some (CallV ImGui.EndChildFrame [])
  | WithBool Combo => Some (CallV ImGui.EndCombo [])
  | WithBool ListBox => Some (CallV ImGui.EndListBox [])
  | WithBool Menu => Some (CallV ImGui.EndMenu [])
  | WithBool Popup => Some (CallV ImGui.EndPopup [])
  | WithBool PopupModal => Some (CallV ImGui.EndPopup [])
  | WithBool PopupContextItem => Some (CallV ImGui.EndPopup [])
  | WithBool PopupContextWindow => Some (CallV ImGui.EndPopup [])
  | WithBool PopupContextVoid => Some (CallV ImGui.EndPopup [])
  | WithBool Table => Some (CallV ImGui.EndTable [])
  | WithBool TabBar => Some (CallV ImGui.EndTabBar [])
  | WithBool TabItem => Some (CallV ImGui.EndTabItem [])
  | WithBool DragDropSource => Some (CallV ImGui.EndDragDropSource [])
  | WithBool TreeNode => Some (CallV ImGui.TreePop [])
  | WithBool TreeNodeV => Some (CallV ImGui.TreePop [])
  | WithBool TreeNodeEx => Some (CallV ImGui.TreePop [])
  | WithBool TreeNodeExV => Some (CallV ImGui.TreePop [])
  | WithBool TooltipOnHover => Some (CallV ImGui.EndTooltip [])
  | WithBool DragDropTarget => Some (CallV ImGui.EndDragDropTarget [])
  | WithBool MainMenuBar => Some (CallV ImGui.EndMainMenuBar [])
  | WithBool MenuBar => Some (CallV ImGui.EndMenuBar [])
  | WithVoid m => Some (POP_of m)
  | Set_ m => Some (POP_of (with_of m))
  | Plain _ => None
  end.

(** Whether the closing call is unconditional (specification, section 4). *)
Definition closes_always (m : Macro) : bool :=
  match m with
  | WithBool (Window | Child | ChildFrame) => true
  | WithBool _ => false
  | WithVoid _ | Set_ _ => true
  | Plain _ => false
  end.

Definition perform (c : Call) : M unit :=
  match c with
  | CallB f args => call_bool f args ;;; pure tt
  | CallV f args => call_void f args
  end.

(** A macro that does nothing but forward: the library's opening function
    is called with the caller's arguments, the block runs (when the opening
    function returns [bool], only if it returned [true]), and the library's
    closing function is called when control leaves, always or only after a
    [true] opening as configured. *)
Definition pass_through (m : Macro) (args : list Arg) (block else_ : M unit) : M unit :=
  let args := if takes_arguments m then args else [] in
  let close (opened : bool) : M unit :=
    match library_closing m with
    | Some c => if closes_always m || opened then perform c else pure tt
    | None => pure tt
    end in
  match library_opening m with
  | inl f =>
      opened <- call_bool f args ;;
      at_scope_exit (if opened then block else else_) (close opened)
  | inr f =>
      call_void f args ;;; at_scope_exit block (close true)
  end.

(** ** The guard as an object *)

(** The members [struct BooleanGuard] declares. *)
Inductive Member : Type :=
| Constructor          (* BooleanGuard(const bool, const ScopeEndCallback) *)
| CopyConstructor      (* BooleanGuard(const BooleanGuard&) *)
| MoveConstructor      (* BooleanGuard(BooleanGuard&&) *)
| CopyAssignment       (* operator=(const BooleanGuard&) *)
| MoveAssignment       (* operator=(BooleanGuard&&) *)
| Destructor           (* ~BooleanGuard() *)
| ConversionToBool.    (* operator bool() const & *)

Record Declaration : Type := mkDeclaration {
  is_deleted : bool;     (* = delete *)
  is_noexcept : bool;    (* noexcept *)
  is_const : bool        (* const member function *)
}.

(** The declarations of [struct BooleanGuard], member by member. *)
Definition BooleanGuard_declares (m : Member) : Declaration :=
  match m with
  | Constructor => mkDeclaration false true false
  | CopyConstructor => mkDeclaration true false false
  | MoveConstructor => mkDeclaration true false false
  | CopyAssignment => mkDeclaration true false false
  | MoveAssignment => mkDeclaration true false false
  | Destructor => mkDeclaration false true false
  | ConversionToBool => mkDeclaration false true true
  end.

(** A guard object: alive with its two members, or destroyed. *)
Inductive Object : Type :=
| Alive (AlwaysCallEnd : bool) (guard : BooleanGuard AlwaysCallEnd)
| Destroyed.

(** What a program can do with guard objects, each named by its identity. *)
Inductive Op : Type :=
| Construct (id : nat) (AlwaysCallEnd state : bool) (end_ : ScopeEndCallback)
| CopyConstruct (id from : nat)
| MoveConstruct (id from : nat)
| CopyAssign (id from : nat)
| MoveAssign (id from : nat)
| ConvertToBool (id : nat)
| Destroy (id : nat).

Definition member_of (op : Op) : Member :=
  match op with
  | Construct _ _ _ _ => Constructor
  | CopyConstruct _ _ => CopyConstructor
  | MoveConstruct _ _ => MoveConstructor
  | CopyAssign _ _ => CopyAssignment
  | MoveAssign _ _ => MoveAssignment
  | ConvertToBool _ => ConversionToBool
  | Destroy _ => Destructor
  end.

Record Machine : Type := mkMachine {
  objects : gmap nat Object;
  world : World;
  terminated : bool
}.

Definition has_terminated {A} (o : Outcome A) : bool :=
  match o with Terminated => true | _ => false end.

(** One operation.  [None]: the program is ill-formed (it names a deleted
    member) or misuses an object (one that does not exist, is already
    destroyed, or whose identity is taken), or has already terminated.
    Where a class does not delete them, copy and move give the target the
    members of the source. *)
Definition step (declares : Member -> Declaration) (op : Op) (st : Machine)
    : option Machine :=
  if terminated st then None
  else if is_deleted (declares (member_of op)) then None
  else
    match op with
    | Construct id A state end_ =>
        match objects st !! id with
        | Some _ => None
        | None =>
            match BooleanGuard_ctor A state end_ (world st) with
            | (Normal g, w) =>
                Some (mkMachine (<[id := Alive A g]> (objects st)) w false)
            | (_, w) => Some (mkMachine (objects st) w true)
            end
        end
    | CopyConstruct id from | MoveConstruct id from =>
        match objects st !! id, objects st !! from with
        | None, Some (Alive A g) =>
            Some (mkMachine (<[id := Alive A g]> (objects st)) (world st) false)
        | _, _ => None
        end
    | CopyAssign id from | MoveAssign id from =>
        match objects st !! id, objects st !! from with
        | Some (Alive A _), Some (Alive B g) =>
            if Bool.eqb A B
            then Some (mkMachine (<[id := Alive B g]> (objects st)) (world st) false)
            else None
        | _, _ => None
        end
    | ConvertToBool id =>
        match objects st !! id with
        | Some (Alive A g) =>
            let '(o, w) := operator_bool g (world st) in
            Some (mkMachine (objects st) w (has_terminated o))
        | _ => None
        end
    | Destroy id =>
        match objects st !! id with
        | Some (Alive A g) =>
            let '(o, w) := BooleanGuard_dtor g (world st) in
            Some (mkMachine (<[id := Destroyed]> (objects st)) w (has_terminated o))
        | _ => None
        end
    end.

Fixpoint run (declares : Member -> Declaration) (ops : list Op) (st : Machine)
    : option Machine :=
  match ops with
  | [] => Some st
  | op :: ops =>
      match step declares op st with
      | Some st' => run declares ops st'
      | None => None
      end
  end.

Definition start (w : World) : Machine := mkMachine ∅ w false.

(** The template argument and the two members of a live object. *)
Definition members (o : Object) : option (bool * bool * ScopeEndCallback) :=
  match o with
  | Alive A g => Some (A, m_state g, m_end g)
  | Destroyed => None
  end.

(** The operations that would make or overwrite a guard from another. *)
Definition copies_or_moves (op : Op) : bool :=
  match op with
  | CopyConstruct _ _ | MoveConstruct _ _ | CopyAssign _ _ | MoveAssign _ _ => true
  | _ => false
  end.

(** A class like [BooleanGuard] that leaves the copy constructor to the
    compiler: what deleting it rules out. *)
Definition copyable_declares (m : Member) : Declaration :=
  match m with
  | CopyConstructor => mkDeclaration false true false
  | _ => BooleanGuard_declares m
  end.

End Sugar.

Arguments mkBooleanGuard {L AlwaysCallEnd} m_state m_end.
Arguments m_state {L AlwaysCallEnd} b.
Arguments m_end {L AlwaysCallEnd} b.

Declare Scope sugar_scope.
Notation "x <- m ;; k" := (bind m (fun x => k))
  (at level 100, m at next level, right associativity) : sugar_scope.
Notation "m ;;; k" := (bind m (fun _ => k))
  (at level 100, right associativity) : sugar_scope.
Open Scope sugar_scope.

(** ** A small library to run the macros against

    Every [Begin*] function reports what [reports_open] says,
    [IsItemHovered] reports [item_hovered], and the style-colour stack is
    kept by its depth. *)

Record DemoContext : Type := mkDemo {
  item_hovered : bool;
  reports_open : bool;
  style_colors : nat
}.

Definition demo_bool (f : BoolFn) (args : list Arg) (c : DemoContext)
    : bool * DemoContext :=
  match f with
  | ImGui.IsItemHovered => (item_hovered c, c)
  | _ => (reports_open c, c)
  end.

Definition demo_void (f : VoidFn) (args : list Arg) (c : DemoContext)
    : DemoContext :=
  match f, args with
  | ImGui.PushStyleColor, _ =>
      mkDemo (item_hovered c) (reports_open c) (S (style_colors c))
  | ImGui.PopStyleColor, [AInt n] =>
      mkDemo (item_hovered c) (reports_open c) (style_colors c - Z.to_nat n)
  | _, _ => c
  end.

Definition demo_library : ImGuiLibrary :=
  {| ImGuiContext := DemoContext; imgui_bool := demo_bool; imgui_void := demo_void |}.

Definition demo_world (hovered open : bool) : @World demo_library :=
  @mkWorld demo_library (mkDemo hovered open 0) [].

(** A block that does nothing, and one that leaves by an exception. *)
Definition skip {L : ImGuiLibrary} : M unit := pure tt.
Definition throw {L : ImGuiLibrary} : M unit := fun w => (Abrupt Throw, w).

(** ** Guards inside guards *)

(** A guard over a [void] opening call, as a statement of its own
    ([with_X(...) block]) or declared in the enclosing block
    ([set_X(...); rest]). *)
Inductive Scoped : Type :=
| Nested (m : VoidMacro)
| Declared (m : SetMacro).

Definition expand_scoped {L : ImGuiLibrary} (s : Scoped) (args : list Arg)
    (block : M unit) : M unit :=
  match s with
  | Nested m => expand_void m args block skip
  | Declared m => expand_set m args block
  end.

(** [with_A(a) with_B(b) ... block], or [{ set_A(a); set_B(b); ... block }],
    or any mix of the two: each guard's block is everything that follows. *)
Fixpoint nest {L : ImGuiLibrary} (guards : list (Scoped * list Arg))
    (block : M unit) : M unit :=
  match guards with
  | [] => block
  | (s, args) :: guards => expand_scoped s args (nest guards block)
  end.

(** The call a guard opens with and the call it closes with. *)
Definition pushed (g : Scoped * list Arg) : Call :=
  match g with
  | (Nested m, args) =>
      CallV (PUSH_of m) (if takes_arguments (WithVoid m) then args else [])
  | (Declared m, args) => CallV (PUSH_of (with_of m)) args
  end.

Definition popped (g : Scoped * list Arg) : Call :=
  match g with
  | (Nested m, _) => POP_of m
  | (Declared m, _) => POP_of (with_of m)
  end.

(** The calls of a list, made one after the other. *)
Fixpoint perform_all {L : ImGuiLibrary} (cs : list Call) : M unit :=
  match cs with
  | [] => pure tt
  | c :: cs => perform c ;;; perform_all cs
  end.

(** ** Storage of guard objects *)

(** Automatic storage: objects are destroyed in the reverse of the order
    they were constructed in, and every one of them by the end of the block.
    [live] lists the objects constructed and not yet destroyed, the latest
    first.  Dynamic storage ([new] and [delete]) is under no such rule. *)
Fixpoint automatic {L : ImGuiLibrary} (live : list nat) (ops : list Op) : bool :=
  match ops with
  | [] => match live with [] => true | _ :: _ => false end
  | Construct id _ _ _ :: ops => automatic (id :: live) ops
  | Destroy id :: ops =>
      match live with
      | latest :: live => Nat.eqb id latest && automatic live ops
      | [] => false
      end
  | _ :: ops => automatic live ops
  end.

(** * Properties *)

Section Properties.
Context {L : ImGuiLibrary}.

(** ** Library calls and the basic combinators *)

Lemma perform_run (c : Call) (w : World) :
  exists w', perform c w = (Normal tt, w') /\ calls w' = calls w ++ [c].
Proof.
  destruct c as [f args|f args]; cbn.
  - unfold bind, call_bool. destruct (imgui_bool f args (ctx w)) as [b c'].
    eexists; split; reflexivity.
  - eexists; split; reflexivity.
Qed.

Lemma bind_normal {A B} (m : M A) (k : A -> M B) {w w' : World} {a : A} :
  m w = (Normal a, w') -> bind m k w = k a w'.
Proof. unfold bind. intros ->. reflexivity. Qed.

Lemma call_bool_returns (f : BoolFn) (args : list Arg) (w : World) :
  exists s w', call_bool f args w = (Normal s, w') /\
               calls w' = calls w ++ [CallB f args].
Proof.
  unfold call_bool. destruct (imgui_bool f args (ctx w)) as [s c].
  exists s. eexists. split; reflexivity.
Qed.

Lemma noexcept_normal {A} (body : M A) (w w' : World) (a : A) :
  body w = (Normal a, w') -> noexcept body w = (Normal a, w').
Proof. unfold noexcept. intros ->. reflexivity. Qed.

Lemma noexcept_never_throws {A} (body : M A) (w : World) :
  fst (noexcept body w) <> Abrupt Throw.
Proof.
  unfold noexcept. destruct (body w) as [[a|[]|] w']; cbn; discriminate.
Qed.

Lemma received_app (c : Call) (l1 l2 : list Call) :
  received c (l1 ++ l2) = received c l1 + received c l2.
Proof. induction l1 as [|c' l1 IH]; cbn; [reflexivity|]. rewrite IH. lia. Qed.

Lemma received_one (c : Call) : received c [c] = 1.
Proof. cbn. destruct (decide (c = c)); [reflexivity|congruence]. Qed.

Lemma at_scope_exit_run {A} (body : M A) (destroy : M unit)
    (w w2 w3 : World) (o : Outcome A) :
  body w = (o, w2) -> o <> Terminated -> destroy w2 = (Normal tt, w3) ->
  at_scope_exit body destroy w = (o, w3).
Proof.
  intros Hb Ho Hd. unfold at_scope_exit. rewrite Hb.
  destruct o as [a|how|]; [| |congruence]; rewrite Hd; reflexivity.
Qed.

(** ** The guard *)

Lemma ctor_run (A s : bool) (e : ScopeEndCallback) (w : World) :
  BooleanGuard_ctor A s e w = (Normal (mkBooleanGuard s e), w).
Proof. reflexivity. Qed.

Lemma operator_bool_run {A} (g : BooleanGuard A) (w : World) :
  operator_bool g w = (Normal (m_state g), w).
Proof. reflexivity. Qed.

Lemma dtor_run {A} (g : BooleanGuard A) (w w' : World) :
  m_end g w = (Normal tt, w') ->
  BooleanGuard_dtor g w = (Normal tt, if A || m_state g then w' else w).
Proof.
  intros He. unfold BooleanGuard_dtor.
  destruct (A || m_state g); [apply noexcept_normal, He|reflexivity].
Qed.

Lemma if_guard_run (A : bool) (state : M bool) (e : ScopeEndCallback)
    (then_ else_ : M unit) (w w1 w2 w3 : World) (s : bool) (o : Outcome unit) :
  state w = (Normal s, w1) ->
  (if s then then_ else else_) w1 = (o, w2) ->
  o <> Terminated ->
  e w2 = (Normal tt, w3) ->
  if_guard A state e then_ else_ w = (o, if A || s then w3 else w2).
Proof.
  intros Hs Hb Ho He. unfold if_guard, bind at 1. rewrite Hs.
  unfold bind at 1. rewrite ctor_run.
  apply at_scope_exit_run with (w2 := w2); [|exact Ho|].
  - unfold bind. rewrite operator_bool_run. exact Hb.
  - apply (@dtor_run A (mkBooleanGuard s e)). exact He.
Qed.

Lemma declare_guard_run (A : bool) (state : M bool) (e : ScopeEndCallback)
    (rest : M unit) (w w1 w2 w3 : World) (s : bool) (o : Outcome unit) :
  state w = (Normal s, w1) ->
  rest w1 = (o, w2) ->
  o <> Terminated ->
  e w2 = (Normal tt, w3) ->
  declare_guard A state e rest w = (o, if A || s then w3 else w2).
Proof.
  intros Hs Hb Ho He. unfold declare_guard, bind at 1. rewrite Hs.
  unfold bind at 1. rewrite ctor_run.
  apply at_scope_exit_run with (w2 := w2); [exact Hb|exact Ho|].
  apply (@dtor_run A (mkBooleanGuard s e)). exact He.
Qed.

End Properties.

(** ** Destruction and conversion *)

Section GuardProperties.
Context {L : ImGuiLibrary}.

(** C1.  A guard [BooleanGuard<AlwaysCallEnd>] constructed with the state [s]
    and the end callback [e] is the pair of the two.  Its destructor calls
    [e] when [AlwaysCallEnd] is true; otherwise it calls [e] when [s] is
    true and does nothing at all when [s] is false.  Seen from the library,
    for a callback that performs the call [c]: the calls received grow by
    exactly [c] in the first two cases and not at all in the last. *)
Theorem BooleanGuard_dtor_invokes_end
    (AlwaysCallEnd s : bool) (e : ScopeEndCallback) (c : Call) (w : World) :
  BooleanGuard_ctor AlwaysCallEnd s e w = (Normal (mkBooleanGuard s e), w) /\
  BooleanGuard_dtor (mkBooleanGuard (AlwaysCallEnd := AlwaysCallEnd) s e) w =
    (if AlwaysCallEnd then noexcept e w
     else if s then noexcept e w
     else (Normal tt, w)) /\
  (let r := BooleanGuard_dtor
              (mkBooleanGuard (AlwaysCallEnd := AlwaysCallEnd) s (perform c)) w in
   fst r = Normal tt /\
   calls (snd r) =
     calls w ++ (if AlwaysCallEnd then [c] else if s then [c] else []) /\
   received c (calls (snd r)) =
     received c (calls w) + (if AlwaysCallEnd then 1 else if s then 1 else 0)).
Proof.
  split; [reflexivity|]. split.
  - unfold BooleanGuard_dtor; cbn [m_state m_end].
    destruct AlwaysCallEnd, s; reflexivity.
  - destruct (perform_run c w) as (w' & Hrun & Hcalls). cbv zeta.
    rewrite (@dtor_run _ AlwaysCallEnd (mkBooleanGuard s (perform c)) w w' Hrun).
    cbn [fst snd m_state].
    destruct AlwaysCallEnd, s; cbn [orb]; (split; [reflexivity|]);
      rewrite ?Hcalls, ?received_app, ?received_one, ?app_nil_r; cbn [received];
      split; (reflexivity || lia).
Qed.

(** C3.  The conversion to [bool] of a guard constructed with the state [s]
    returns [s], whatever [AlwaysCallEnd] is, and changes nothing; as the
    condition of the [if] of a [with_] macro it selects the block exactly
    when [s] is true. *)
Theorem operator_bool_returns_state
    (AlwaysCallEnd s : bool) (e : ScopeEndCallback) (then_ else_ : M unit)
    (w : World) :
  operator_bool (mkBooleanGuard (AlwaysCallEnd := AlwaysCallEnd) s e) w =
    (Normal s, w) /\
  (cond <- operator_bool (mkBooleanGuard (AlwaysCallEnd := AlwaysCallEnd) s e) ;;
   if cond then then_ else else_) w =
    (if s then then_ else else_) w.
Proof. split; reflexivity. Qed.

End GuardProperties.

(** ** The macros of the DSL *)

Section MacroProperties.
Context {L : ImGuiLibrary}.

Lemma expand_bool_table (m : BoolMacro) (args : list Arg) (then_ else_ : M unit) :
  expand_bool m args then_ else_ =
  if_guard (closes_always (WithBool m)) (BEGIN_of m args)
    (perform (CallV (END_of m) [])) then_ else_.
Proof. destruct m; reflexivity. Qed.

Lemma expand_void_table (m : VoidMacro) (args : list Arg) (then_ else_ : M unit) :
  expand_void m args then_ else_ =
  if_guard true
    (IMGUI_SUGAR_ES (call_void (PUSH_of m))
       (if takes_arguments (WithVoid m) then args else []))
    (perform (POP_of m)) then_ else_.
Proof. destruct m; reflexivity. Qed.

Lemma expand_set_table (m : SetMacro) (args : list Arg) (rest : M unit) :
  expand_set m args rest =
  declare_guard true (IMGUI_SUGAR_ES (call_void (PUSH_of (with_of m))) args)
    (perform (POP_of (with_of m))) rest.
Proof. destruct m; reflexivity. Qed.

Lemma set_takes_arguments (m : SetMacro) :
  takes_arguments (WithVoid (with_of m)) = true.
Proof. destruct m; reflexivity. Qed.

(** C8.  ALWAYS is fixed per macro.  For each [with_] macro whose opening
    call returns [bool], once the statement is left the library has
    received the closing call after the block: for [with_Window],
    [with_Child] and [with_ChildFrame] (closing with [End], [EndChild],
    [EndChildFrame]) whatever the opening call returned, for every other
    one only when the opening call returned true, and not at all when it
    returned false. *)
Theorem always_is_fixed_per_macro
    (m : BoolMacro) (args : list Arg) (then_ else_ : M unit)
    (w w1 w2 : World) (s : bool) (o : Outcome unit) :
  BEGIN_of m args w = (Normal s, w1) ->
  (if s then then_ else else_) w1 = (o, w2) -> o <> Terminated ->
  (END_of Window = ImGui.End_ /\ END_of Child = ImGui.EndChild /\
   END_of ChildFrame = ImGui.EndChildFrame) /\
  exists w3,
    expand_bool m args then_ else_ w = (o, w3) /\
    calls w3 =
      calls w2 ++
      (if match m with Window | Child | ChildFrame => true | _ => s end
       then [CallV (END_of m) []] else []).
Proof.
  intros HB Hblock Ho. split; [repeat split|].
  destruct (perform_run (CallV (END_of m) []) w2) as (w3 & Hc & Hcalls).
  exists (if closes_always (WithBool m) || s then w3 else w2). split.
  - rewrite expand_bool_table.
    exact (if_guard_run _ _ _ then_ else_ w w1 w2 w3 s o HB Hblock Ho Hc).
  - destruct m; cbn [closes_always orb]; try destruct s;
      rewrite ?Hcalls, ?app_nil_r; reflexivity.
Qed.

(** C9.  For each macro over a [void] opening call, [with_] or [set_]: the
    expression statement makes the library call with the given arguments
    and yields true, so the guard is constructed with the state true, the
    block (for a [set_] macro: the rest of the enclosing scope) runs and
    never the [else] branch, and once the statement is left the library has
    received the closing call after the block. *)
Theorem void_macros_always_run_and_close
    (m : VoidMacro) (args : list Arg) (block else_ : M unit)
    (w w2 : World) (o : Outcome unit) :
  let args' := if takes_arguments (WithVoid m) then args else [] in
  let w1 := {| ctx := imgui_void (PUSH_of m) args' (ctx w);
               calls := calls w ++ [CallV (PUSH_of m) args'] |} in
  block w1 = (o, w2) -> o <> Terminated ->
  IMGUI_SUGAR_ES (call_void (PUSH_of m)) args' w = (Normal true, w1) /\
  (exists guard : BooleanGuard true,
     m_state guard = true /\
     expand_void m args block else_ w =
       at_scope_exit (cond <- operator_bool guard ;; if cond then block else else_)
         (BooleanGuard_dtor guard) w1 /\
     forall sm : SetMacro, with_of sm = m ->
       expand_set sm args block w =
         at_scope_exit block (BooleanGuard_dtor guard) w1) /\
  exists w3,
    calls w3 = calls w2 ++ [POP_of m] /\
    expand_void m args block else_ w = (o, w3) /\
    forall sm : SetMacro, with_of sm = m -> expand_set sm args block w = (o, w3).
Proof.
  intros args' w1 Hblock Ho.
  assert (HES : IMGUI_SUGAR_ES (call_void (PUSH_of m)) args' w = (Normal true, w1))
    by reflexivity.
  split; [exact HES|]. split.
  - exists (mkBooleanGuard true (perform (POP_of m))). split; [reflexivity|]. split.
    + rewrite expand_void_table. fold args'.
      unfold if_guard. rewrite (bind_normal _ _ HES). reflexivity.
    + intros sm <-. rewrite expand_set_table.
      subst w1 args'. rewrite set_takes_arguments in *.
      unfold declare_guard. rewrite (bind_normal _ _ HES). reflexivity.
  - destruct (perform_run (POP_of m) w2) as (w3 & Hc & Hcalls).
    exists w3. split; [exact Hcalls|]. split.
    + rewrite expand_void_table. fold args'.
      exact (if_guard_run true _ _ block else_ w w1 w2 w3 true o HES Hblock Ho Hc).
    + intros sm <-. rewrite expand_set_table.
      subst w1 args'. rewrite set_takes_arguments in *.
      exact (declare_guard_run true _ _ block w _ w2 w3 true o HES Hblock Ho Hc).
Qed.


End MacroProperties.

(** ** Leaving a guarded scope *)

Section ScopeProperties.
Context {L : ImGuiLibrary}.

(** C2.  For every expansion of a scoped macro: once the guarded statement
    is left, by running off its end or by [break], [continue], [return],
    [goto] or an exception, the statement has completed the same way and the
    library has received the closing call exactly once after the block (never
    twice) when the closing call is unconditional or the opening call
    returned true, and not at all otherwise; so every entry into the block
    is closed exactly once.  This is stated for the five generic macros with
    any opening function, closing call and ALWAYS, and with them for every
    [with_] and [set_] macro and for [with_ButtonColored]. *)
Theorem scope_closes_exactly_once
    (ALWAYS : bool) (BEGIN : list Arg -> M bool) (PUSH : list Arg -> M unit)
    (c p : Call) (args : list Arg) (then_ else_ : M unit)
    (w w1 w2 v1 v2 : World) (s : bool) (o o' : Outcome unit) :
  BEGIN args w = (Normal s, w1) ->
  (if s then then_ else else_) w1 = (o, w2) -> o <> Terminated ->
  PUSH args w = (Normal tt, v1) ->
  then_ v1 = (o', v2) -> o' <> Terminated ->
  (exists w3,
     IMGUI_SUGAR_SCOPED_BOOL BEGIN (perform c) ALWAYS args then_ else_ w = (o, w3) /\
     (args = [] ->
      IMGUI_SUGAR_SCOPED_BOOL_0 BEGIN (perform c) ALWAYS then_ else_ w = (o, w3)) /\
     (forall m : BoolMacro,
        BEGIN = BEGIN_of m -> c = CallV (END_of m) [] ->
        ALWAYS = match m with Window | Child | ChildFrame => true | _ => false end ->
        expand_bool m args then_ else_ w = (o, w3)) /\
     (forall r g b : Q,
        BEGIN = (fun _ => ButtonColored_push r g b) ->
        c = CallV ImGui.PopStyleColor [AInt 3] -> ALWAYS = true ->
        with_ButtonColored r g b then_ else_ w = (o, w3)) /\
     calls w3 = calls w2 ++ (if ALWAYS || s then [c] else []) /\
     received c (calls w3) =
       received c (calls w2) + (if ALWAYS || s then 1 else 0)) /\
  (exists v3,
     IMGUI_SUGAR_SCOPED_VOID_N PUSH (perform p) args then_ else_ w = (o', v3) /\
     (args = [] ->
      IMGUI_SUGAR_SCOPED_VOID_0 PUSH (perform p) then_ else_ w = (o', v3)) /\
     IMGUI_SUGAR_PARENT_SCOPED_VOID_N PUSH (perform p) args then_ w = (o', v3) /\
     (forall m : VoidMacro,
        PUSH = call_void (PUSH_of m) -> p = POP_of m ->
        takes_arguments (WithVoid m) = true \/ args = [] ->
        expand_void m args then_ else_ w = (o', v3)) /\
     (forall m : SetMacro,
        PUSH = call_void (PUSH_of (with_of m)) -> p = POP_of (with_of m) ->
        expand_set m args then_ w = (o', v3)) /\
     calls v3 = calls v2 ++ [p] /\
     received p (calls v3) = received p (calls v2) + 1).
Proof.
  intros HB Hblock Ho HP Hthen Ho'. split.
  - destruct (perform_run c w2) as (w3 & Hc & Hcalls).
    exists (if ALWAYS || s then w3 else w2).
    assert (Hif : if_guard ALWAYS (BEGIN args) (perform c) then_ else_ w =
                  (o, if ALWAYS || s then w3 else w2))
      by exact (if_guard_run ALWAYS (BEGIN args) (perform c) then_ else_
                  w w1 w2 w3 s o HB Hblock Ho Hc).
    split; [exact Hif|]. split; [intros Hargs; rewrite Hargs in Hif; exact Hif|].
    split; [|split].
    + intros m HBm Hcm HAm. rewrite expand_bool_table.
      replace (closes_always (WithBool m)) with ALWAYS
        by (rewrite HAm; destruct m; reflexivity).
      rewrite <- HBm, <- Hcm. exact Hif.
    + intros r g b HBm Hcm HAm. unfold with_ButtonColored, ButtonColored_pop.
      rewrite HBm, Hcm, HAm in Hif. rewrite HAm. exact Hif.
    + destruct (ALWAYS || s);
        rewrite ?Hcalls, ?received_app, ?received_one, ?app_nil_r;
        split; (reflexivity || lia).
  - destruct (perform_run p v2) as (v3 & Hp & Hcalls). exists v3.
    assert (HES : IMGUI_SUGAR_ES PUSH args w = (Normal true, v1))
      by (unfold IMGUI_SUGAR_ES; rewrite (bind_normal _ _ HP); reflexivity).
    assert (Hif : if_guard true (IMGUI_SUGAR_ES PUSH args) (perform p) then_ else_ w =
                  (o', v3))
      by exact (if_guard_run true _ (perform p) then_ else_
                  w v1 v2 v3 true o' HES Hthen Ho' Hp).
    assert (Hdecl : declare_guard true (IMGUI_SUGAR_ES PUSH args) (perform p) then_ w =
                    (o', v3))
      by exact (declare_guard_run true _ (perform p) then_
                  w v1 v2 v3 true o' HES Hthen Ho' Hp).
    split; [exact Hif|]. split; [intros Hargs; rewrite Hargs in Hif; exact Hif|].
    split; [exact Hdecl|]. split; [|split].
    + intros m HPm Hpm Hargs. rewrite expand_void_table, <- HPm, <- Hpm.
      destruct Hargs as [-> | ->]; [exact Hif|].
      destruct (takes_arguments (WithVoid m)); exact Hif.
    + intros m HPm Hpm. rewrite expand_set_table, <- HPm, <- Hpm. exact Hdecl.
    + rewrite Hcalls, received_app, received_one. split; reflexivity.
Qed.

End ScopeProperties.

Lemma scope_closes_exactly_once_witness :
  (exists w3 : @World demo_library,
     with_Combo [AString "mode"] throw skip (demo_world false true)
       = (Abrupt Throw, w3) /\
     calls w3 =
       [CallB ImGui.BeginCombo [AString "mode"]] ++ [CallV ImGui.EndCombo []] /\
     received (CallV ImGui.EndCombo []) (calls w3) = 0 + 1) /\
  (exists v3 : @World demo_library,
     set_ID [AString "mode"] throw (demo_world false true) = (Abrupt Throw, v3) /\
     calls v3 = [CallV ImGui.PushID [AString "mode"]] ++ [CallV ImGui.PopID []] /\
     received (CallV ImGui.PopID []) (calls v3) = 0 + 1).
Proof.
  destruct (@scope_closes_exactly_once demo_library false
              (call_bool ImGui.BeginCombo) (call_void ImGui.PushID)
              (CallV ImGui.EndCombo []) (CallV ImGui.PopID [])
              [AString "mode"] throw skip (demo_world false true)
              (@mkWorld demo_library (mkDemo false true 0)
                 [CallB ImGui.BeginCombo [AString "mode"]])
              (@mkWorld demo_library (mkDemo false true 0)
                 [CallB ImGui.BeginCombo [AString "mode"]])
              (@mkWorld demo_library (mkDemo false true 0)
                 [CallV ImGui.PushID [AString "mode"]])
              (@mkWorld demo_library (mkDemo false true 0)
                 [CallV ImGui.PushID [AString "mode"]])
              true (Abrupt Throw) (Abrupt Throw))
    as [(w3 & Hbool & _ & _ & _ & Hcalls & Hcount)
        (v3 & _ & _ & Hset & _ & _ & Hcallsv & Hcountv)];
    try solve [reflexivity | discriminate].
  split.
  - exists w3. split; [exact Hbool|]. split; [exact Hcalls|exact Hcount].
  - exists v3. split; [exact Hset|]. split; [exact Hcallsv|exact Hcountv].
Defined.

Lemma always_is_fixed_per_macro_witness :
  (@END_of Window = ImGui.End_ /\ @END_of Child = ImGui.EndChild /\
   @END_of ChildFrame = ImGui.EndChildFrame) /\
  exists w3,
    @expand_bool demo_library Window [AString "Debug"] skip skip
      (demo_world false false) = (Normal tt, w3) /\
    calls w3 =
      [CallB ImGui.Begin [AString "Debug"]] ++ [CallV ImGui.End_ []].
Proof.
  apply (@always_is_fixed_per_macro demo_library Window [AString "Debug"]
           skip skip (demo_world false false)
           (@mkWorld demo_library (mkDemo false false 0)
              [CallB ImGui.Begin [AString "Debug"]])
           (@mkWorld demo_library (mkDemo false false 0)
              [CallB ImGui.Begin [AString "Debug"]])
           false (Normal tt));
    solve [reflexivity | discriminate].
Defined.

Lemma void_macros_always_run_and_close_witness :
  exists w3 : @World demo_library,
    calls w3 =
      [CallV ImGui.PushID [AString "row"]] ++ [CallV ImGui.PopID []] /\
    expand_void ID_ [AString "row"] throw skip (demo_world false false)
      = (Abrupt Throw, w3) /\
    forall sm : SetMacro, with_of sm = ID_ ->
      expand_set sm [AString "row"] throw (demo_world false false)
      = (Abrupt Throw, w3).
Proof.
  apply (@void_macros_always_run_and_close demo_library ID_ [AString "row"]
           throw skip (demo_world false false)
           (@mkWorld demo_library (mkDemo false false 0)
              [CallV ImGui.PushID [AString "row"]])
           (Abrupt Throw));
    solve [reflexivity | discriminate].
Defined.


(** ** Pass-through *)

Section PassThrough.
Context {L : ImGuiLibrary}.

Lemma noexcept_perform (c : Call) (w : World) :
  noexcept (perform c) w = perform c w.
Proof.
  destruct (perform_run c w) as (w' & Hrun & _).
  rewrite Hrun. apply noexcept_normal, Hrun.
Qed.

Lemma at_scope_exit_ext {A} (body body' : M A) (destroy destroy' : M unit)
    (w : World) :
  body w = body' w -> (forall w', destroy w' = destroy' w') ->
  at_scope_exit body destroy w = at_scope_exit body' destroy' w.
Proof.
  intros Hb Hd. unfold at_scope_exit. rewrite Hb.
  destruct (body' w) as [[a|how|] w']; try rewrite Hd; reflexivity.
Qed.

Lemma dtor_perform (A s : bool) (c : Call) (w : World) :
  BooleanGuard_dtor (mkBooleanGuard (AlwaysCallEnd := A) s (perform c)) w =
  (if A || s then perform c else pure tt) w.
Proof.
  unfold BooleanGuard_dtor; cbn [m_state m_end].
  destruct (A || s); [apply noexcept_perform|reflexivity].
Qed.

Lemma if_guard_bool_forwards (A : bool) (f : BoolFn) (args : list Arg) (c : Call)
    (then_ else_ : M unit) (w : World) :
  if_guard A (call_bool f args) (perform c) then_ else_ w =
  (opened <- call_bool f args ;;
   at_scope_exit (if opened then then_ else else_)
     (if A || opened then perform c else pure tt)) w.
Proof.
  destruct (call_bool_returns f args w) as (s & w1 & Hcall & _).
  unfold if_guard. rewrite !(bind_normal _ _ Hcall).
  rewrite (bind_normal _ _ (ctor_run A s (perform c) w1)).
  apply at_scope_exit_ext; [reflexivity|]. intros w'. apply dtor_perform.
Qed.

Lemma if_guard_void_forwards (f : VoidFn) (args : list Arg) (c : Call)
    (then_ else_ : M unit) (w : World) :
  if_guard true (IMGUI_SUGAR_ES (call_void f) args) (perform c) then_ else_ w =
  (call_void f args ;;; at_scope_exit then_ (perform c)) w.
Proof.
  unfold if_guard, IMGUI_SUGAR_ES, bind, call_void, pure. cbn.
  apply at_scope_exit_ext; [reflexivity|]. intros w'.
  apply (dtor_perform true true).
Qed.

Lemma declare_guard_void_forwards (f : VoidFn) (args : list Arg) (c : Call)
    (rest : M unit) (w : World) :
  declare_guard true (IMGUI_SUGAR_ES (call_void f) args) (perform c) rest w =
  (call_void f args ;;; at_scope_exit rest (perform c)) w.
Proof.
  unfold declare_guard, IMGUI_SUGAR_ES, bind, call_void, pure. cbn.
  apply at_scope_exit_ext; [reflexivity|]. intros w'.
  apply (dtor_perform true true).
Qed.

(** C4, as amended.  Every [with_] and [set_] macro defined through the
    generic macros or as a plain [if], other than [with_TooltipOnHover],
    does what forwarding alone does: the library's opening function is
    called with the caller's arguments, the block runs, and the library's
    closing function is called as configured.  [with_TooltipOnHover] first
    asks the library whether the item is hovered; only then does it open
    the tooltip, run the block and close the tooltip, and otherwise it runs
    the [else] branch. *)
Theorem macros_forward_except_TooltipOnHover
    (m : Macro) (args : list Arg) (block else_ : M unit) (w : World) :
  m <> WithBool TooltipOnHover ->
  expand m args block else_ w = pass_through m args block else_ w /\
  expand (WithBool TooltipOnHover) args block else_ w =
    (hovered <- call_bool ImGui.IsItemHovered [] ;;
     if hovered then pass_through (WithVoid Tooltip_) [] block else_
     else else_) w.
Proof.
  intros Hm. split.
  - destruct m as [bm|vm|sm|pm].
    + cbn [expand]. rewrite expand_bool_table.
      destruct bm; try congruence; apply if_guard_bool_forwards.
    + cbn [expand]. rewrite expand_void_table.
      unfold pass_through. cbn [library_opening library_closing closes_always orb].
      apply if_guard_void_forwards.
    + cbn [expand]. rewrite expand_set_table.
      unfold pass_through. cbn [library_opening library_closing closes_always orb].
      destruct sm; apply declare_guard_void_forwards.
    + destruct pm; cbn [expand expand_plain];
        unfold with_CollapsingHeader, with_MenuItem, pass_through;
        cbn [library_opening library_closing takes_arguments];
        match goal with |- context [call_bool ?f args] =>
          destruct (call_bool_returns f args w) as (s & w1 & Hcall & _) end;
        rewrite !(bind_normal _ _ Hcall);
        unfold at_scope_exit, pure;
        destruct ((if s then block else else_) w1) as [[[]|how|] w2]; reflexivity.
  - cbn [expand expand_bool]. unfold with_TooltipOnHover, IMGUI_SUGAR_SCOPED_BOOL_0.
    destruct (call_bool_returns ImGui.IsItemHovered [] w) as (hovered & w1 & Hh & _).
    rewrite (bind_normal _ _ Hh).
    unfold if_guard, ImGuiSugar_BeginTooltip.
    rewrite (bind_normal _ (fun s => _ <- BooleanGuard_ctor false s _ ;; _)
               (w' := if hovered
                      then snd (call_void ImGui.BeginTooltip [] w1) else w1)
               (a := hovered)).
    2: { rewrite (bind_normal _ _ Hh). destruct hovered; reflexivity. }
    rewrite (bind_normal _ _ (ctor_run false hovered _ _)).
    destruct hovered.
    + unfold pass_through.
      cbn [library_opening library_closing closes_always orb takes_arguments
           PUSH_of POP_of].
      rewrite (bind_normal (call_void ImGui.BeginTooltip []) _ (w := w1) (a := tt)
                 (w' := snd (call_void ImGui.BeginTooltip [] w1)) eq_refl).
      apply at_scope_exit_ext; [reflexivity|]. intros w'.
      apply (dtor_perform false true (CallV ImGui.EndTooltip [])).
    + unfold at_scope_exit. rewrite (bind_normal _ _ (operator_bool_run _ w1)).
      cbn [m_state]. destruct (else_ w1) as [[[]|how|] w2]; reflexivity.
Qed.

End PassThrough.

Lemma macros_forward_except_TooltipOnHover_witness :
  @expand demo_library (WithVoid StyleVar_) [AInt 2; AFloat 0] throw skip
    (demo_world true true) =
  pass_through (WithVoid StyleVar_) [AInt 2; AFloat 0] throw skip
    (demo_world true true) /\
  @expand demo_library (WithBool TooltipOnHover) [AInt 2; AFloat 0] throw skip
    (demo_world true true) =
  (hovered <- call_bool ImGui.IsItemHovered [] ;;
   if hovered then pass_through (WithVoid Tooltip_) [] throw skip else skip)
    (demo_world true true).
Proof.
  apply (@macros_forward_except_TooltipOnHover demo_library (WithVoid StyleVar_)).
  discriminate.
Defined.

(** C4, as stated, fails: on an item that is not hovered,
    [with_TooltipOnHover() {}] makes one library call, [IsItemHovered()],
    where forwarding to the tooltip pair makes [BeginTooltip()] and
    [EndTooltip()]. *)
Lemma TooltipOnHover_does_not_forward :
  let w := demo_world false false in
  calls (snd (expand (WithBool TooltipOnHover) [] skip skip w)) =
    [CallB ImGui.IsItemHovered []] /\
  calls (snd (pass_through (WithBool TooltipOnHover) [] skip skip w)) =
    [CallV ImGui.BeginTooltip []; CallV ImGui.EndTooltip []] /\
  ~ (forall (L : ImGuiLibrary) (m : Macro) (args : list Arg)
        (block else_ : M unit) (w : World),
       expand m args block else_ w = pass_through m args block else_ w).
Proof.
  cbv zeta. split; [reflexivity|]. split; [reflexivity|].
  intros H.
  specialize (H demo_library (WithBool TooltipOnHover) [] skip skip
                (demo_world false false)).
  vm_compute in H. discriminate H.
Qed.

(** ** The life of a guard object *)

Section ObjectProperties.
Context {L : ImGuiLibrary}.

Lemma step_keeps_destroyed (op : Op) (st st' : Machine) (id : nat) :
  step BooleanGuard_declares op st = Some st' ->
  objects st !! id = Some Destroyed ->
  objects st' !! id = Some Destroyed.
Proof.
  unfold step. destruct (terminated st); [discriminate|].
  destruct op as [i A s e|i j|i j|i j|i j|i|i];
    cbn [member_of BooleanGuard_declares is_deleted]; try discriminate.
  - destruct (objects st !! i) eqn:E; [discriminate|]. rewrite ctor_run.
    intros [= <-] H. cbn. rewrite lookup_insert_ne; [exact H|].
    intros ->. congruence.
  - destruct (objects st !! i) as [[A0 g0|]|]; try discriminate.
    rewrite operator_bool_run. intros [= <-] H. exact H.
  - destruct (objects st !! i) as [[A0 g0|]|] eqn:E; try discriminate.
    destruct (BooleanGuard_dtor g0 (world st)) as [o w]. intros [= <-] H. cbn.
    destruct (decide (i = id)) as [->|Hne].
    + apply lookup_insert_eq.
    + rewrite lookup_insert_ne; [exact H|exact Hne].
Qed.

Lemma step_keeps_alive (op : Op) (st st' : Machine) (id : nat)
    (A : bool) (g : BooleanGuard A) :
  step BooleanGuard_declares op st = Some st' ->
  objects st !! id = Some (Alive A g) ->
  objects st' !! id = Some (Alive A g) \/ objects st' !! id = Some Destroyed.
Proof.
  unfold step. destruct (terminated st); [discriminate|].
  destruct op as [i A' s e|i j|i j|i j|i j|i|i];
    cbn [member_of BooleanGuard_declares is_deleted]; try discriminate.
  - destruct (objects st !! i) eqn:E; [discriminate|]. rewrite ctor_run.
    intros [= <-] H. cbn. left. rewrite lookup_insert_ne; [exact H|].
    intros ->. congruence.
  - destruct (objects st !! i) as [[A0 g0|]|]; try discriminate.
    rewrite operator_bool_run. intros [= <-] H. left. exact H.
  - destruct (objects st !! i) as [[A0 g0|]|] eqn:E; try discriminate.
    destruct (BooleanGuard_dtor g0 (world st)) as [o w]. intros [= <-] H. cbn.
    destruct (decide (i = id)) as [->|Hne].
    + right. apply lookup_insert_eq.
    + left. rewrite lookup_insert_ne; [exact H|exact Hne].
Qed.

Lemma step_origin (op : Op) (st st' : Machine) (id : nat)
    (A : bool) (g : BooleanGuard A) :
  step BooleanGuard_declares op st = Some st' ->
  objects st' !! id = Some (Alive A g) ->
  objects st !! id = Some (Alive A g) \/
  op = Construct id A (m_state g) (m_end g).
Proof.
  unfold step. destruct (terminated st); [discriminate|].
  destruct op as [i A' s e|i j|i j|i j|i j|i|i];
    cbn [member_of BooleanGuard_declares is_deleted]; try discriminate.
  - destruct (objects st !! i) eqn:E; [discriminate|]. rewrite ctor_run.
    intros [= <-]. cbn. destruct (decide (i = id)) as [->|Hne].
    + rewrite lookup_insert_eq. intros H. right.
      apply (f_equal (fun o => o ≫= members)) in H. cbn in H.
      injection H as -> -> ->. reflexivity.
    + rewrite lookup_insert_ne by exact Hne. intros H. left. exact H.
  - destruct (objects st !! i) as [[A0 g0|]|]; try discriminate.
    rewrite operator_bool_run. intros [= <-] H. left. exact H.
  - destruct (objects st !! i) as [[A0 g0|]|] eqn:E; try discriminate.
    destruct (BooleanGuard_dtor g0 (world st)) as [o w]. intros [= <-]. cbn.
    destruct (decide (i = id)) as [->|Hne].
    + rewrite lookup_insert_eq. discriminate.
    + rewrite lookup_insert_ne by exact Hne. intros H. left. exact H.
Qed.

Lemma step_is_declared (op : Op) (st st' : Machine) :
  step BooleanGuard_declares op st = Some st' -> copies_or_moves op = false.
Proof.
  unfold step. destruct (terminated st); [discriminate|].
  destruct op; cbn [member_of BooleanGuard_declares is_deleted];
    (discriminate || reflexivity).
Qed.

Lemma run_keeps_destroyed (ops : list Op) (st st' : Machine) (id : nat) :
  run BooleanGuard_declares ops st = Some st' ->
  objects st !! id = Some Destroyed ->
  objects st' !! id = Some Destroyed.
Proof.
  revert st. induction ops as [|op ops IH]; cbn; intros st Hrun H.
  - injection Hrun as <-. exact H.
  - destruct (step BooleanGuard_declares op st) as [st1|] eqn:E; [|discriminate].
    apply (IH st1 Hrun). exact (step_keeps_destroyed op st st1 id E H).
Qed.

Lemma run_keeps_alive (ops : list Op) (st st' : Machine) (id : nat)
    (A : bool) (g : BooleanGuard A) :
  run BooleanGuard_declares ops st = Some st' ->
  objects st !! id = Some (Alive A g) ->
  objects st' !! id = Some (Alive A g) \/ objects st' !! id = Some Destroyed.
Proof.
  revert st. induction ops as [|op ops IH]; cbn; intros st Hrun H.
  - injection Hrun as <-. left. exact H.
  - destruct (step BooleanGuard_declares op st) as [st1|] eqn:E; [|discriminate].
    destruct (step_keeps_alive op st st1 id A g E H) as [Ha|Hd].
    + exact (IH st1 Hrun Ha).
    + right. exact (run_keeps_destroyed ops st1 st' id Hrun Hd).
Qed.

Lemma run_origin (ops : list Op) (st st' : Machine) (id : nat)
    (A : bool) (g : BooleanGuard A) :
  run BooleanGuard_declares ops st = Some st' ->
  objects st' !! id = Some (Alive A g) ->
  objects st !! id = Some (Alive A g) \/
  In (Construct id A (m_state g) (m_end g)) ops.
Proof.
  revert st. induction ops as [|op ops IH]; cbn; intros st Hrun H.
  - injection Hrun as <-. left. exact H.
  - destruct (step BooleanGuard_declares op st) as [st1|] eqn:E; [|discriminate].
    destruct (IH st1 Hrun H) as [H1|Hin]; [|right; right; exact Hin].
    destruct (step_origin op st st1 id A g E H1) as [H0 | ->]; [left; exact H0|].
    right. left. reflexivity.
Qed.

Lemma run_is_declared (ops : list Op) (st st' : Machine) :
  run BooleanGuard_declares ops st = Some st' ->
  forall op, In op ops -> copies_or_moves op = false.
Proof.
  revert st. induction ops as [|op ops IH]; cbn; intros st Hrun op' Hin.
  - destruct Hin.
  - destruct (step BooleanGuard_declares op st) as [st1|] eqn:E; [|discriminate].
    destruct Hin as [<-|Hin]; [exact (step_is_declared op st st1 E)|].
    exact (IH st1 Hrun op' Hin).
Qed.

End ObjectProperties.

Section ObjectTheorems.
Context {L : ImGuiLibrary}.

(** C5.  A guard is its two members, the boolean and the end callback, and
    nothing more.  The constructor stores its two arguments in them, and
    through every sequence of operations that follows the construction the
    object keeps exactly these two values until it is destroyed. *)
Theorem guard_members_are_fixed
    (ops : list Op) (st st' : Machine) (id : nat) (A s : bool)
    (e : ScopeEndCallback) :
  run BooleanGuard_declares (Construct id A s e :: ops) st = Some st' ->
  (forall g : BooleanGuard A, g = mkBooleanGuard (m_state g) (m_end g)) /\
  (forall w, exists g : BooleanGuard A,
     BooleanGuard_ctor A s e w = (Normal g, w) /\ m_state g = s /\ m_end g = e) /\
  (objects st' !! id = Some (Alive A (mkBooleanGuard s e)) \/
   objects st' !! id = Some Destroyed).
Proof.
  intros Hrun. split; [intros []; reflexivity|]. split.
  - intros w. exists (mkBooleanGuard s e). repeat split.
  - cbn [run] in Hrun.
    destruct (step BooleanGuard_declares (Construct id A s e) st) as [st1|] eqn:E;
      [|discriminate].
    apply (run_keeps_alive ops st1 st' id A (mkBooleanGuard s e) Hrun).
    revert E. unfold step. destruct (terminated st); [discriminate|].
    cbn [member_of BooleanGuard_declares is_deleted].
    destruct (objects st !! id); [discriminate|]. rewrite ctor_run.
    intros [= <-]. cbn. apply lookup_insert_eq.
Qed.

Lemma step_destroy_destroys (id : nat) (st st' : Machine) :
  step BooleanGuard_declares (Destroy id) st = Some st' ->
  objects st' !! id = Some Destroyed.
Proof.
  unfold step. destruct (terminated st); [discriminate|].
  cbn [member_of BooleanGuard_declares is_deleted].
  destruct (objects st !! id) as [[A g|]|]; try discriminate.
  destruct (BooleanGuard_dtor g (world st)) as [o w]. intros [= <-]. cbn.
  apply lookup_insert_eq.
Qed.

Lemma automatic_destroys_live (ops : list Op) (live : list nat)
    (st st' : Machine) (id : nat) :
  run BooleanGuard_declares ops st = Some st' ->
  automatic live ops = true ->
  In id live -> objects st' !! id = Some Destroyed.
Proof.
  revert live st. induction ops as [|op ops IH]; cbn [run automatic];
    intros live st Hrun Hauto Hin.
  - destruct live; [destruct Hin|discriminate].
  - destruct (step BooleanGuard_declares op st) as [st1|] eqn:E; [|discriminate].
    destruct op as [i A s e|i j|i j|i j|i j|i|i];
      try exact (IH live st1 Hrun Hauto Hin).
    + apply (IH (i :: live) st1 Hrun Hauto). right. exact Hin.
    + destruct live as [|latest live]; [discriminate|].
      apply andb_prop in Hauto. destruct Hauto as [Heq Hauto].
      apply Nat.eqb_eq in Heq. subst latest.
      destruct Hin as [<-|Hin]; [|exact (IH live st1 Hrun Hauto Hin)].
      apply (run_keeps_destroyed ops st1 st' i Hrun).
      exact (step_destroy_destroys i st st1 E).
Qed.

Lemma automatic_destroys_constructed (ops : list Op) (live : list nat)
    (st st' : Machine) (id : nat) (A s : bool) (e : ScopeEndCallback) :
  run BooleanGuard_declares ops st = Some st' ->
  automatic live ops = true ->
  In (Construct id A s e) ops -> objects st' !! id = Some Destroyed.
Proof.
  revert live st. induction ops as [|op ops IH]; cbn [run automatic];
    intros live st Hrun Hauto Hin.
  - destruct Hin.
  - destruct (step BooleanGuard_declares op st) as [st1|] eqn:E; [|discriminate].
    destruct Hin as [->|Hin].
    + apply (automatic_destroys_live ops (id :: live) st1 st' id Hrun Hauto).
      left. reflexivity.
    + destruct op as [i A' s' e'|i j|i j|i j|i j|i|i];
        try exact (IH live st1 Hrun Hauto Hin).
      * exact (IH (i :: live) st1 Hrun Hauto Hin).
      * destruct live as [|latest live]; [discriminate|].
        apply andb_prop in Hauto. destruct Hauto as [_ Hauto].
        exact (IH live st1 Hrun Hauto Hin).
Qed.

(** C6, as amended.  The guard is not copyable and not movable: a program
    that runs contains no operation that would make a guard from another or
    assign one to another, and every guard alive after it was either alive
    before or made by the constructor, with its own state and end callback,
    in the course of the program.  This does not by itself keep a guard
    inside its creating block.  What does is automatic storage: when the
    guards of a program are constructed and destroyed in block order, no
    guard made in the program is alive after it. *)
Theorem guard_is_not_copied_or_moved
    (ops : list Op) (st st' : Machine) :
  run BooleanGuard_declares ops st = Some st' ->
  (forall op, In op ops -> copies_or_moves op = false) /\
  (forall id A (g : BooleanGuard A),
     objects st' !! id = Some (Alive A g) ->
     objects st !! id = Some (Alive A g) \/
     In (Construct id A (m_state g) (m_end g)) ops) /\
  (automatic [] ops = true ->
   forall id A (g : BooleanGuard A),
     objects st' !! id = Some (Alive A g) ->
     objects st !! id = Some (Alive A g) /\
     ~ In (Construct id A (m_state g) (m_end g)) ops).
Proof.
  intros Hrun. split; [exact (run_is_declared ops st st' Hrun)|]. split.
  - intros id A g. exact (run_origin ops st st' id A g Hrun).
  - intros Hauto id A g Halive.
    assert (Hnot : ~ In (Construct id A (m_state g) (m_end g)) ops).
    { intros Hin.
      pose proof (automatic_destroys_constructed ops [] st st' id A _ _
                    Hrun Hauto Hin) as Hd.
      rewrite Halive in Hd. discriminate Hd. }
    split; [|exact Hnot].
    destruct (run_origin ops st st' id A g Hrun Halive) as [H0|Hin];
      [exact H0|contradiction].
Qed.

(** C7, as amended.  The constructor, the conversion to [bool] and the
    destructor are declared [noexcept].  Construction and conversion always
    return and touch nothing.  The destructor never lets an exception out;
    it returns whenever the end callback returns, and also when it does not
    call the callback; when the callback it calls throws, the destructor
    ends the program in [std::terminate].  Over any sequence of operations
    an object only ever goes from constructed to destroyed: a live object
    stays as it is or becomes destroyed, and a destroyed one stays
    destroyed. *)
Theorem guard_fails_only_through_its_callback
    (ops : list Op) (st st' : Machine) (id : nat) (A s : bool)
    (e : ScopeEndCallback) (g : BooleanGuard A) (w : World) :
  run BooleanGuard_declares ops st = Some st' ->
  (is_noexcept (BooleanGuard_declares Constructor) = true /\
   is_noexcept (BooleanGuard_declares ConversionToBool) = true /\
   is_noexcept (BooleanGuard_declares Destructor) = true) /\
  BooleanGuard_ctor A s e w = (Normal (mkBooleanGuard s e), w) /\
  operator_bool g w = (Normal (m_state g), w) /\
  fst (BooleanGuard_dtor g w) <> Abrupt Throw /\
  (forall w', m_end g w = (Normal tt, w') ->
     BooleanGuard_dtor g w = (Normal tt, if A || m_state g then w' else w)) /\
  (A || m_state g = false -> BooleanGuard_dtor g w = (Normal tt, w)) /\
  (forall w', m_end g w = (Abrupt Throw, w') -> A || m_state g = true ->
     BooleanGuard_dtor g w = (Terminated, w')) /\
  (objects st !! id = Some (Alive A g) ->
   objects st' !! id = Some (Alive A g) \/ objects st' !! id = Some Destroyed) /\
  (objects st !! id = Some Destroyed -> objects st' !! id = Some Destroyed).
Proof.
  intros Hrun. split; [repeat split|]. split; [reflexivity|].
  split; [reflexivity|]. split; [apply noexcept_never_throws|].
  split; [intros w' Hend; exact (dtor_run g w w' Hend)|]. split; [|split; [|split]].
  - intros Hno. unfold BooleanGuard_dtor. rewrite Hno. reflexivity.
  - intros w' Hend Hyes. unfold BooleanGuard_dtor, noexcept.
    rewrite Hyes, Hend. reflexivity.
  - exact (run_keeps_alive ops st st' id A g Hrun).
  - exact (run_keeps_destroyed ops st st' id Hrun).
Qed.

End ObjectTheorems.

Lemma guard_members_are_fixed_witness :
  let end_ := @address_of demo_library ImGui.EndCombo in
  let st' :=
    mkMachine (<[0 := Destroyed]> (<[0 := Alive false (mkBooleanGuard true end_)]> ∅))
      (@mkWorld demo_library (mkDemo false true 0) [CallV ImGui.EndCombo []])
      false in
  objects st' !! 0 = Some (Alive false (mkBooleanGuard true end_)) \/
  objects st' !! 0 = Some Destroyed.
Proof.
  cbv zeta.
  apply (@guard_members_are_fixed demo_library [ConvertToBool 0; Destroy 0]
           (start (demo_world false true))).
  vm_compute. reflexivity.
Defined.

Lemma guard_is_not_copied_or_moved_witness :
  let outer := mkBooleanGuard (AlwaysCallEnd := true) false
                 (@address_of demo_library ImGui.End_) in
  let inner := @address_of demo_library ImGui.EndCombo in
  let ops := [Construct 0 false true inner; ConvertToBool 0; Destroy 0] in
  let st := @mkMachine demo_library {[5 := Alive true outer]}
              (demo_world false true) false in
  automatic [] ops = true /\
  @copies_or_moves demo_library (Destroy 0) = false /\
  objects st !! 5 = Some (Alive true outer) /\
  ~ In (Construct 5 true false (address_of ImGui.End_)) ops.
Proof.
  cbv zeta.
  destruct (@guard_is_not_copied_or_moved demo_library
              [Construct 0 false true (address_of ImGui.EndCombo);
               ConvertToBool 0; Destroy 0]
              (mkMachine
                 {[5 := Alive true (mkBooleanGuard false (address_of ImGui.End_))]}
                 (demo_world false true) false)
              (mkMachine
                 (<[0 := Destroyed]>
                    (<[0 := Alive false
                              (mkBooleanGuard true (address_of ImGui.EndCombo))]>
                       {[5 := Alive true
                                (mkBooleanGuard false (address_of ImGui.End_))]}))
                 (@mkWorld demo_library (mkDemo false true 0) [CallV ImGui.EndCombo []])
                 false))
    as (Hops & _ & Hblock).
  - vm_compute. reflexivity.
  - split; [reflexivity|]. split.
    + apply Hops. right. right. left. reflexivity.
    + apply (Hblock eq_refl 5 true (mkBooleanGuard false (address_of ImGui.End_))).
      vm_compute. reflexivity.
Defined.

(** C6, as stated, fails in its conclusion: the class lets a program
    construct two guards, destroy the first while the second is alive and
    never destroy the second (as with [new] and [delete]).  That program
    runs, is in no block order, and leaves the second guard alive with its
    [End] never called. *)
Lemma guard_can_outlive_its_block :
  let end_ := @address_of demo_library ImGui.End_ in
  let ops := [Construct 0 true true end_; Construct 1 true true end_; Destroy 0] in
  (exists st',
     run BooleanGuard_declares ops (start (demo_world false true)) = Some st' /\
     objects st' !! 1 = Some (Alive true (mkBooleanGuard true end_)) /\
     calls (world st') = [CallV ImGui.End_ []]) /\
  automatic [] ops = false /\
  ~ (forall (L : ImGuiLibrary) (ops : list Op) (st st' : Machine),
       run BooleanGuard_declares ops st = Some st' -> automatic [] ops = true).
Proof.
  cbv zeta. split; [|split].
  - eexists. split; [vm_compute; reflexivity|]. split; reflexivity.
  - reflexivity.
  - intros H.
    specialize (H demo_library
                  [Construct 0 true true (address_of ImGui.End_);
                   Construct 1 true true (address_of ImGui.End_); Destroy 0]
                  (start (demo_world false true))).
    destruct (run BooleanGuard_declares
                [Construct 0 true true (address_of ImGui.End_);
                 Construct 1 true true (address_of ImGui.End_); Destroy 0]
                (start (demo_world false true))) as [st'|] eqn:E.
    + specialize (H st' eq_refl). discriminate H.
    + vm_compute in E. discriminate E.
Qed.

Lemma guard_fails_only_through_its_callback_witness :
  let g := mkBooleanGuard (AlwaysCallEnd := true) false
             (@address_of demo_library ImGui.End_) in
  let w' := @mkWorld demo_library (mkDemo false false 0) [CallV ImGui.End_ []] in
  let st' := mkMachine (<[0 := Destroyed]> {[0 := Alive true g]}) w' false in
  BooleanGuard_dtor g (demo_world false false) = (Normal tt, w') /\
  (objects st' !! 0 = Some (Alive true g) \/ objects st' !! 0 = Some Destroyed).
Proof.
  cbv zeta.
  destruct (@guard_fails_only_through_its_callback demo_library
              [ConvertToBool 0; Destroy 0]
              (mkMachine
                 {[0 := Alive true (mkBooleanGuard false (address_of ImGui.End_))]}
                 (demo_world false false) false)
              (mkMachine
                 (<[0 := Destroyed]>
                    {[0 := Alive true (mkBooleanGuard false (address_of ImGui.End_))]})
                 (@mkWorld demo_library (mkDemo false false 0) [CallV ImGui.End_ []])
                 false)
              0 true false (address_of ImGui.End_)
              (mkBooleanGuard false (address_of ImGui.End_))
              (demo_world false false))
    as (_ & _ & _ & _ & Hdtor & _ & _ & Halive & _).
  - vm_compute. reflexivity.
  - split.
    + apply Hdtor. reflexivity.
    + apply Halive. vm_compute. reflexivity.
Defined.

(** C7, as stated, fails: a guard whose end callback throws has a
    destructor that does not return; it ends the program. *)
Lemma throwing_callback_fails_the_destructor :
  BooleanGuard_dtor
    (mkBooleanGuard (AlwaysCallEnd := true) false (@throw demo_library))
    (demo_world false false) = (Terminated, demo_world false false) /\
  ~ (forall (L : ImGuiLibrary) (A : bool) (g : BooleanGuard A) (w : World),
       exists w', BooleanGuard_dtor g w = (Normal tt, w')).
Proof.
  split; [reflexivity|]. intros H.
  destruct (H demo_library true (mkBooleanGuard false throw)
              (demo_world false false)) as [w' Hw'].
  discriminate Hw'.
Qed.

(** Why the deletion matters: were the copy constructor left to the
    compiler, a copy would carry the same end callback, and destroying both
    objects would close one window twice. *)
Example copyable_guard_would_close_twice :
  exists st' : @Machine demo_library,
    run copyable_declares
      [Construct 0 true true (address_of ImGui.End_); CopyConstruct 1 0;
       Destroy 1; Destroy 0]
      (start (demo_world false true)) = Some st' /\
    calls (world st') = [CallV ImGui.End_ []; CallV ImGui.End_ []].
Proof. eexists. split; [vm_compute; reflexivity|]. reflexivity. Qed.

(** * Further properties of the header *)

Section Composition.
Context {L : ImGuiLibrary}.

Lemma expand_scoped_run (s : Scoped) (args : list Arg) (block : M unit)
    (w w1 w2 w3 : World) (o : Outcome unit) :
  perform (pushed (s, args)) w = (Normal tt, w1) ->
  block w1 = (o, w2) -> o <> Terminated ->
  perform (popped (s, args)) w2 = (Normal tt, w3) ->
  expand_scoped s args block w = (o, w3).
Proof.
  intros Hpush Hblock Ho Hpop.
  assert (HES : forall m a, pushed (s, args) = CallV m a ->
            IMGUI_SUGAR_ES (call_void m) a w = (Normal true, w1)).
  { intros m a E. rewrite E in Hpush. cbn in Hpush. unfold IMGUI_SUGAR_ES.
    rewrite (bind_normal _ _ Hpush). reflexivity. }
  destruct s as [m|m]; cbn [expand_scoped].
  - rewrite expand_void_table.
    exact (if_guard_run true _ _ block skip w w1 w2 w3 true o
             (HES _ _ eq_refl) Hblock Ho Hpop).
  - rewrite expand_set_table.
    exact (declare_guard_run true _ _ block w w1 w2 w3 true o
             (HES _ _ eq_refl) Hblock Ho Hpop).
Qed.

Lemma perform_all_calls (cs : list Call) (w w1 : World) :
  perform_all cs w = (Normal tt, w1) -> calls w1 = calls w ++ cs.
Proof.
  revert w. induction cs as [|c cs IH]; cbn [perform_all]; intros w H.
  - injection H as <-. rewrite app_nil_r. reflexivity.
  - destruct (perform_run c w) as (wa & Hc & Hcalls).
    rewrite (bind_normal _ _ Hc) in H. rewrite (IH wa H), Hcalls, <- app_assoc.
    reflexivity.
Qed.

(** X1.  Guards close in the reverse of the order they were opened in.  For
    any list of guards over [void] opening calls, nested as [with_]
    statements or declared with [set_] in one block: the opening calls are
    made in order before the innermost block, and however that block is
    left, the statement completes the same way and the library receives
    every closing call after it, last opened first. *)
Theorem nested_guards_close_in_reverse
    (guards : list (Scoped * list Arg)) (block : M unit)
    (w w1 w2 : World) (o : Outcome unit) :
  perform_all (map pushed guards) w = (Normal tt, w1) ->
  block w1 = (o, w2) -> o <> Terminated ->
  calls w1 = calls w ++ map pushed guards /\
  exists w3,
    nest guards block w = (o, w3) /\
    calls w3 = calls w2 ++ rev (map popped guards).
Proof.
  intros Hopen Hblock Ho. split; [exact (perform_all_calls _ w w1 Hopen)|].
  revert w Hopen. induction guards as [|[s args] guards IH]; intros w Hopen.
  - cbn in Hopen. injection Hopen as ->. exists w2. split; [exact Hblock|].
    cbn. rewrite app_nil_r. reflexivity.
  - cbn [map perform_all] in Hopen.
    destruct (perform_run (pushed (s, args)) w) as (wa & Hpush & _).
    rewrite (bind_normal _ _ Hpush) in Hopen.
    destruct (IH wa Hopen) as (wb & Hnest & Hcalls).
    destruct (perform_run (popped (s, args)) wb) as (w3 & Hpop & Hcalls3).
    exists w3. split.
    + cbn [nest].
      exact (expand_scoped_run s args (nest guards block) w wa wb w3 o
               Hpush Hnest Ho Hpop).
    + rewrite Hcalls3, Hcalls. cbn [map rev]. rewrite <- app_assoc. reflexivity.
Qed.

(** X2.  A [set_] macro followed by the rest of its block does exactly what
    the [with_] macro of the same pair does with that rest as its block, on
    every world and for every way the block completes; the [else] branch of
    the [with_] form never matters. *)
Theorem set_is_with_over_the_rest
    (m : SetMacro) (args : list Arg) (block else_ : M unit) (w : World) :
  expand_set m args block w = expand_void (with_of m) args block else_ w.
Proof.
  rewrite expand_set_table, expand_void_table, set_takes_arguments.
  unfold declare_guard, if_guard.
  assert (HES : IMGUI_SUGAR_ES (call_void (PUSH_of (with_of m))) args w =
                (Normal true, snd (call_void (PUSH_of (with_of m)) args w)))
    by reflexivity.
  rewrite !(bind_normal _ _ HES).
  rewrite !(bind_normal _ _ (ctor_run true true _ _)).
  apply at_scope_exit_ext; reflexivity.
Qed.

(** X3.  An end callback that throws.  When the destructor calls it (ALWAYS
    set, or the opening call returned true) the exception cannot leave the
    [noexcept] destructor: the program terminates, whatever way the block
    completed.  When the destructor does not call it, the statement
    completes as its block did. *)
Theorem throwing_end_callback_terminates
    (ALWAYS : bool) (BEGIN : M bool) (e : ScopeEndCallback)
    (then_ else_ : M unit) (w w1 w2 w3 : World) (s : bool) (o : Outcome unit) :
  BEGIN w = (Normal s, w1) ->
  (if s then then_ else else_) w1 = (o, w2) -> o <> Terminated ->
  e w2 = (Abrupt Throw, w3) ->
  BooleanGuard_dtor (mkBooleanGuard (AlwaysCallEnd := ALWAYS) s e) w2 =
    (if ALWAYS || s then (Terminated, w3) else (Normal tt, w2)) /\
  if_guard ALWAYS BEGIN e then_ else_ w =
    (if ALWAYS || s then (Terminated, w3) else (o, w2)).
Proof.
  intros HB Hblock Ho He.
  assert (Hd : BooleanGuard_dtor (mkBooleanGuard (AlwaysCallEnd := ALWAYS) s e) w2 =
               (if ALWAYS || s then (Terminated, w3) else (Normal tt, w2))).
  { unfold BooleanGuard_dtor, noexcept; cbn [m_state m_end].
    destruct (ALWAYS || s); [rewrite He|]; reflexivity. }
  split; [exact Hd|].
  unfold if_guard. rewrite (bind_normal _ _ HB).
  rewrite (bind_normal _ _ (ctor_run ALWAYS s e w1)).
  unfold at_scope_exit. rewrite (bind_normal _ _ (operator_bool_run _ w1)).
  cbn [m_state]. rewrite Hblock, Hd.
  destruct o as [[]|how|]; [| |congruence]; destruct (ALWAYS || s); reflexivity.
Qed.

(** X4.  [with_TooltipOnHover] never closes a tooltip it did not open.  It
    asks [IsItemHovered()] once.  If the item is hovered it calls
    [BeginTooltip()], runs the block, and the library receives
    [EndTooltip()] after the block however the block is left; if not, it
    runs the [else] branch and makes no other call. *)
Theorem TooltipOnHover_brackets_the_block
    (then_ else_ : M unit) (w w2 : World) (o : Outcome unit) :
  let hovered := fst (imgui_bool ImGui.IsItemHovered [] (ctx w)) in
  let asked := snd (call_bool ImGui.IsItemHovered [] w) in
  let w1 := if hovered then snd (call_void ImGui.BeginTooltip [] asked)
            else asked in
  (if hovered then then_ else else_) w1 = (o, w2) -> o <> Terminated ->
  ImGuiSugar_BeginTooltip w = (Normal hovered, w1) /\
  calls w1 =
    calls w ++ CallB ImGui.IsItemHovered [] ::
               (if hovered then [CallV ImGui.BeginTooltip []] else []) /\
  exists w3,
    with_TooltipOnHover then_ else_ w = (o, w3) /\
    calls w3 = calls w2 ++ (if hovered then [CallV ImGui.EndTooltip []] else []).
Proof.
  intros hovered asked w1 Hblock Ho.
  assert (Hask : call_bool ImGui.IsItemHovered [] w = (Normal hovered, asked)).
  { subst hovered asked. unfold call_bool.
    destruct (imgui_bool ImGui.IsItemHovered [] (ctx w)); reflexivity. }
  assert (Hbegin : ImGuiSugar_BeginTooltip w = (Normal hovered, w1)).
  { unfold ImGuiSugar_BeginTooltip. rewrite (bind_normal _ _ Hask).
    subst w1. destruct hovered; reflexivity. }
  assert (Hasked : calls asked = calls w ++ [CallB ImGui.IsItemHovered []]).
  { subst asked. unfold call_bool.
    destruct (imgui_bool ImGui.IsItemHovered [] (ctx w)); reflexivity. }
  split; [exact Hbegin|]. split.
  - subst w1. destruct hovered; cbn [snd call_void calls]; rewrite Hasked.
    + rewrite <- app_assoc. reflexivity.
    + reflexivity.
  - destruct (perform_run (CallV ImGui.EndTooltip []) w2) as (w3 & Hc & Hcalls).
    exists (if false || hovered then w3 else w2). split.
    + exact (if_guard_run false _ _ then_ else_ w w1 w2 w3 hovered o
               Hbegin Hblock Ho Hc).
    + destruct hovered; cbn [orb]; rewrite ?Hcalls, ?app_nil_r; reflexivity.
Qed.

(** X5.  [with_StyleColor] / [set_StyleColor] and [with_StyleVar] /
    [set_StyleVar] pop what they pushed.  For a library whose stack grows by
    one per push and shrinks by the count popped: the stack is one deeper
    inside the block, and after a block that leaves the depth as it found
    it, back at its depth before the macro.  The count 1 of the wrappers
    [ImGuiSugar::PopStyleColor] and [ImGuiSugar::PopStyleVar] is the one
    push of the macro. *)
Theorem style_macros_pop_what_they_pushed
    (depth : ImGuiContext -> nat) (m : VoidMacro) (pop : VoidFn)
    (args : list Arg) (block else_ : M unit) (w w2 : World) (o : Outcome unit) :
  (m = StyleColor_ /\ pop = ImGui.PopStyleColor) \/
  (m = StyleVar_ /\ pop = ImGui.PopStyleVar) ->
  (forall a c, depth (imgui_void (PUSH_of m) a c) = S (depth c)) ->
  (forall n c, n <= depth c ->
     depth (imgui_void pop [AInt (Z.of_nat n)] c) = depth c - n) ->
  let w1 := snd (call_void (PUSH_of m) args w) in
  block w1 = (o, w2) -> o <> Terminated ->
  depth (ctx w2) = depth (ctx w1) ->
  depth (ctx w1) = S (depth (ctx w)) /\
  exists w3,
    expand_void m args block else_ w = (o, w3) /\
    (forall sm, with_of sm = m -> expand_set sm args block w = (o, w3)) /\
    calls w3 = calls w2 ++ [CallV pop [AInt 1]] /\
    depth (ctx w3) = depth (ctx w).
Proof.
  intros Hm Hpush Hpop w1 Hblock Ho Hbal.
  assert (Hd1 : depth (ctx w1) = S (depth (ctx w))) by apply Hpush.
  split; [exact Hd1|].
  assert (HPOP : POP_of m = CallV pop [AInt 1])
    by (destruct Hm as [[-> ->]|[-> ->]]; reflexivity).
  assert (Hargs : takes_arguments (WithVoid m) = true)
    by (destruct Hm as [[-> _]|[-> _]]; reflexivity).
  assert (HES : IMGUI_SUGAR_ES (call_void (PUSH_of m)) args w = (Normal true, w1))
    by reflexivity.
  exists (snd (call_void pop [AInt 1] w2)).
  assert (Hc : perform (POP_of m) w2 = (Normal tt, snd (call_void pop [AInt 1] w2)))
    by (rewrite HPOP; reflexivity).
  split; [|split; [|split]].
  - rewrite expand_void_table, Hargs.
    exact (if_guard_run true _ _ block else_ w w1 w2 _ true o HES Hblock Ho Hc).
  - intros sm <-. rewrite expand_set_table.
    exact (declare_guard_run true _ _ block w w1 w2 _ true o HES Hblock Ho Hc).
  - reflexivity.
  - cbn [snd call_void ctx]. rewrite (Hpop 1) by lia. lia.
Qed.

End Composition.

Section OpeningFails.
Context {L : ImGuiLibrary}.

(** X6.  An opening call that does not return.  If it leaves by an
    exception, no guard is constructed: the statement completes with that
    exception in the world the opening call left, the block does not run and
    the closing call is not made, also where the closing call is otherwise
    unconditional.  This holds for the [bool] form, the [void] form and the
    parent-scope form of the generic macros. *)
Theorem failed_opening_is_not_closed
    (BEGIN : list Arg -> M bool) (PUSH : list Arg -> M unit)
    (END : ScopeEndCallback) (ALWAYS : bool) (args : list Arg)
    (then_ else_ : M unit) (w w1 w1' : World) :
  BEGIN args w = (Abrupt Throw, w1) ->
  PUSH args w = (Abrupt Throw, w1') ->
  IMGUI_SUGAR_SCOPED_BOOL BEGIN END ALWAYS args then_ else_ w =
    (Abrupt Throw, w1) /\
  IMGUI_SUGAR_SCOPED_VOID_N PUSH END args then_ else_ w = (Abrupt Throw, w1') /\
  IMGUI_SUGAR_PARENT_SCOPED_VOID_N PUSH END args then_ w = (Abrupt Throw, w1').
Proof.
  intros HB HP.
  unfold IMGUI_SUGAR_SCOPED_BOOL, IMGUI_SUGAR_SCOPED_VOID_N,
    IMGUI_SUGAR_PARENT_SCOPED_VOID_N, if_guard, declare_guard, IMGUI_SUGAR_ES.
  repeat split; unfold bind; rewrite ?HB, ?HP; reflexivity.
Qed.

End OpeningFails.

Lemma nested_guards_close_in_reverse_witness :
  exists w3 : @World demo_library,
    nest [(Declared SetFont, [APtr 7]); (Nested ID_, [AString "row"]);
          (Declared SetStyleVar, [AInt 2; AFloat 0])]
      throw (demo_world false false) = (Abrupt Throw, w3) /\
    calls w3 =
      [CallV ImGui.PushFont [APtr 7]; CallV ImGui.PushID [AString "row"];
       CallV ImGui.PushStyleVar [AInt 2; AFloat 0]] ++
      [CallV ImGui.PopStyleVar [AInt 1]; CallV ImGui.PopID [];
       CallV ImGui.PopFont []].
Proof.
  apply (@nested_guards_close_in_reverse demo_library
           [(Declared SetFont, [APtr 7]); (Nested ID_, [AString "row"]);
            (Declared SetStyleVar, [AInt 2; AFloat 0])]
           throw (demo_world false false)
           (@mkWorld demo_library (mkDemo false false 0)
              [CallV ImGui.PushFont [APtr 7]; CallV ImGui.PushID [AString "row"];
               CallV ImGui.PushStyleVar [AInt 2; AFloat 0]])
           (@mkWorld demo_library (mkDemo false false 0)
              [CallV ImGui.PushFont [APtr 7]; CallV ImGui.PushID [AString "row"];
               CallV ImGui.PushStyleVar [AInt 2; AFloat 0]])
           (Abrupt Throw));
    solve [reflexivity | discriminate].
Defined.

Lemma throwing_end_callback_terminates_witness :
  BooleanGuard_dtor
    (mkBooleanGuard (AlwaysCallEnd := true) false (@throw demo_library))
    (@mkWorld demo_library (mkDemo false false 0) [CallB ImGui.Begin []]) =
    (Terminated, @mkWorld demo_library (mkDemo false false 0) [CallB ImGui.Begin []]) /\
  @if_guard demo_library true (call_bool ImGui.Begin []) throw skip skip
    (demo_world false false) =
    (Terminated, @mkWorld demo_library (mkDemo false false 0) [CallB ImGui.Begin []]).
Proof.
  apply (@throwing_end_callback_terminates demo_library true
           (call_bool ImGui.Begin []) throw skip skip (demo_world false false)
           (@mkWorld demo_library (mkDemo false false 0) [CallB ImGui.Begin []])
           (@mkWorld demo_library (mkDemo false false 0) [CallB ImGui.Begin []])
           (@mkWorld demo_library (mkDemo false false 0) [CallB ImGui.Begin []])
           false (Normal tt));
    solve [reflexivity | discriminate].
Defined.

Lemma TooltipOnHover_brackets_the_block_witness :
  exists w3 : @World demo_library,
    with_TooltipOnHover throw skip (demo_world true false) = (Abrupt Throw, w3) /\
    calls w3 =
      [CallB ImGui.IsItemHovered []; CallV ImGui.BeginTooltip []] ++
      [CallV ImGui.EndTooltip []].
Proof.
  apply (@TooltipOnHover_brackets_the_block demo_library throw skip
           (demo_world true false)
           (@mkWorld demo_library (mkDemo true false 0)
              [CallB ImGui.IsItemHovered []; CallV ImGui.BeginTooltip []])
           (Abrupt Throw));
    solve [reflexivity | discriminate].
Defined.

Lemma style_macros_pop_what_they_pushed_witness :
  exists w3 : @World demo_library,
    expand_void StyleColor_ [ACol ImGuiCol_Button; AVec4 (ImVec4.make 1 0 0 1)]
      skip skip (demo_world false false) = (Normal tt, w3) /\
    style_colors (ctx w3) = 0.
Proof.
  destruct (@style_macros_pop_what_they_pushed demo_library style_colors
              StyleColor_ ImGui.PopStyleColor
              [ACol ImGuiCol_Button; AVec4 (ImVec4.make 1 0 0 1)] skip skip
              (demo_world false false)
              (@mkWorld demo_library (mkDemo false false 1)
                 [CallV ImGui.PushStyleColor
                    [ACol ImGuiCol_Button; AVec4 (ImVec4.make 1 0 0 1)]])
              (Normal tt))
    as (_ & w3 & Hrun & _ & _ & Hdepth).
  - left. split; reflexivity.
  - intros a c. reflexivity.
  - intros n c Hn. cbn. rewrite Nat2Z.id. reflexivity.
  - reflexivity.
  - discriminate.
  - reflexivity.
  - exists w3. split; [exact Hrun|exact Hdepth].
Defined.

Lemma failed_opening_is_not_closed_witness :
  @IMGUI_SUGAR_SCOPED_BOOL demo_library (fun _ => throw ;;; pure true)
    (address_of ImGui.EndGroup) true [] skip skip (demo_world false false) =
    (Abrupt Throw, demo_world false false) /\
  @IMGUI_SUGAR_SCOPED_VOID_N demo_library (fun _ => throw)
    (address_of ImGui.EndGroup) [] skip skip (demo_world false false) =
    (Abrupt Throw, demo_world false false) /\
  @IMGUI_SUGAR_PARENT_SCOPED_VOID_N demo_library (fun _ => throw)
    (address_of ImGui.EndGroup) [] skip (demo_world false false) =
    (Abrupt Throw, demo_world false false).
Proof.
  apply (@failed_opening_is_not_closed demo_library
           (fun _ => throw ;;; pure true) (fun _ => throw)); reflexivity.
Defined.
